(** * The dialogue pre-processing pipeline of [data_processing/processor.py]

    A shallow embedding of the [Processor] class: text cleaning, transcript
    formatting, summary extraction from the JSON blob, prompt assembly, the
    per-record step and the dataset-level driver, followed by the properties
    the specification states about them. *)

From Stdlib Require Import ZArith NArith Ascii String List Lia.
From stdpp Require Import gmap list.

Local Open Scope N_scope.
Set Warnings "-register-all".

(** ** Python values *)

(** A Python [str] is a sequence of Unicode code points. *)
Abbreviation char := N (only parsing).
Abbreviation str := (list N) (only parsing).

Fixpoint py (s : string) : str :=
  match s with
  | EmptyString => []
  | String a s' => N_of_ascii a :: py s'
  end.
Arguments py s%_string.

Definition nl : str := [10].

(** [str.isspace] on one code point; [\s] of the [re] module on [str]
    patterns tests the same set. *)
Definition isspace (c : char) : bool :=
  ((9 <=? c) && (c <=? 13)) || ((28 <=? c) && (c <=? 32))
  || (c =? 133) || (c =? 160) || (c =? 5760)
  || ((8192 <=? c) && (c <=? 8202))
  || (c =? 8232) || (c =? 8233) || (c =? 8239) || (c =? 8287) || (c =? 12288).

(** The literals of a JSON number keep their exact decimal value
    [m * 10^e]; [NaN], [Infinity] and [-Infinity] are accepted by [json]. *)
Inductive pyfloat :=
| FDec (m e : Z)
| FInf (negative : bool)
| FNaN.

Inductive value :=
| VNone
| VBool (b : bool)
| VInt (z : Z)
| VFloat (f : pyfloat)
| VStr (s : str)
| VList (l : list value)
| VDict (d : list (str * value)).

(** The exceptions the modelled code can raise. *)
Inductive exn :=
| JSONDecodeError
| KeyError (key : value)
| TypeError
| AttributeError
| ValueError
| TokenizerFailure.

Inductive result (A : Type) :=
| Ok (a : A)
| Err (e : exn).
Arguments Ok {A} a.
Arguments Err {A} e.

Definition bind {A B} (m : result A) (k : A -> result B) : result B :=
  match m with
  | Ok a => k a
  | Err e => Err e
  end.

Notation "'do' x <- m ; k" := (bind m (fun x => k))
  (at level 10, x name, m at level 100, k at level 200).

Fixpoint mapM {A B} (f : A -> result B) (l : list A) : result (list B) :=
  match l with
  | [] => Ok []
  | x :: l' => do y <- f x; do ys <- mapM f l'; Ok (y :: ys)
  end.

Definition is_Ok {A} (r : result A) : Prop := exists a, r = Ok a.
Definition is_Err {A} (r : result A) : Prop := exists e, r = Err e.

(** ** The fragment of [re] the program uses *)

Fixpoint drop_while {A} (p : A -> bool) (l : list A) : list A :=
  match l with
  | [] => []
  | x :: l' => if p x then drop_while p l' else l
  end.

Fixpoint strip_prefix (p s : str) : option str :=
  match p, s with
  | [], _ => Some s
  | x :: p', y :: s' => if x =? y then strip_prefix p' s' else None
  | _ :: _, [] => None
  end.

(** A pattern, tried at the start of the text, gives the text that follows
    the match. The three combinators below never need to backtrack on the
    patterns of this program: each alternative is a literal followed by one
    greedy class repetition that ends the alternative. *)
Definition matcher := str -> option str.

Definition lit (l : str) : matcher := strip_prefix l.

Definition plus (cls : char -> bool) : matcher := fun s =>
  match s with
  | c :: s' => if cls c then Some (drop_while cls s') else None
  | [] => None
  end.

Definition andthen (m1 m2 : matcher) : matcher := fun s =>
  match m1 s with
  | Some r => m2 r
  | None => None
  end.

Definition alt (m1 m2 : matcher) : matcher := fun s =>
  match m1 s with
  | Some r => Some r
  | None => m2 s
  end.

(** [re.sub(pat, repl, text)] for a pattern that matches no empty string:
    scan from the left, replace each match, copy every other character. *)
Fixpoint re_sub_go (pat : matcher) (repl : str) (fuel : nat) (s : str) : str :=
  match fuel with
  | O => []
  | S fuel' =>
      match pat s with
      | Some rest => repl ++ re_sub_go pat repl fuel' rest
      | None =>
          match s with
          | [] => []
          | c :: s' => c :: re_sub_go pat repl fuel' s'
          end
      end
  end.

Definition re_sub (pat : matcher) (repl : str) (s : str) : str :=
  re_sub_go pat repl (S (length s)) s.

Definition non_space (c : char) : bool := negb (isspace c).
Definition not_blank (c : char) : bool := negb (c =? 32).

(** [r"http\S+|@[^\s]+|\^[^ ]+"] *)
Definition pat_unwanted : matcher :=
  alt (andthen (lit (py "http")) (plus non_space))
      (alt (andthen (lit (py "@")) (plus non_space))
           (andthen (lit (py "^")) (plus not_blank))).

(** [r"\s+"] *)
Definition pat_spaces : matcher := plus isspace.

(** [str.strip()] *)
Definition lstrip (s : str) : str := drop_while isspace s.
Definition rstrip (s : str) : str := rev (drop_while isspace (rev s)).
Definition strip (s : str) : str := rstrip (lstrip s).

(** ** The fragment of [json] the program uses

    [json.loads] with its default decoder (strict strings, [NaN] and the
    infinities accepted), as a recursive descent over the remaining text.
    The interpreter's limits on nesting depth and on the digits of an
    integer literal are left out. *)

Definition ch (a : ascii) : char := N_of_ascii a.
Arguments ch a%_char.

Definition dquote : char := 34.
Definition backslash : char := 92.

Definition is_json_ws (c : char) : bool :=
  (c =? 32) || (c =? 9) || (c =? 10) || (c =? 13).

Definition skip_ws (s : str) : str := drop_while is_json_ws s.

Definition is_digit (c : char) : bool := (48 <=? c) && (c <=? 57).

Definition hex_digit (c : char) : option N :=
  if (48 <=? c) && (c <=? 57) then Some (c - 48)
  else if (97 <=? c) && (c <=? 102) then Some (c - 87)
  else if (65 <=? c) && (c <=? 70) then Some (c - 55)
  else None.

Definition hex4 (a b c d : char) : option N :=
  match hex_digit a, hex_digit b, hex_digit c, hex_digit d with
  | Some x, Some y, Some z, Some w => Some (((x * 16 + y) * 16 + z) * 16 + w)
  | _, _, _, _ => None
  end.

Definition is_high_surrogate (u : N) : bool := (55296 <=? u) && (u <=? 56319).
Definition is_low_surrogate (u : N) : bool := (56320 <=? u) && (u <=? 57343).
Definition join_surrogates (hi lo : N) : N :=
  65536 + (N.lor (N.shiftl (hi - 55296) 10) (lo - 56320)).

Definition simple_escape (c : char) : option char :=
  if c =? dquote then Some dquote
  else if c =? backslash then Some backslash
  else if c =? ch "/" then Some (ch "/")
  else if c =? ch "b" then Some 8
  else if c =? ch "f" then Some 12
  else if c =? ch "n" then Some 10
  else if c =? ch "r" then Some 13
  else if c =? ch "t" then Some 9
  else None.

Definition push (c : char) (r : option (str * str)) : option (str * str) :=
  match r with
  | Some (body, rest) => Some (c :: body, rest)
  | None => None
  end.

(** [scanstring], entered after the opening quote: the decoded string and
    the text after the closing quote. *)
Fixpoint scanstring (s : str) : option (str * str) :=
  match s with
  | [] => None
  | c :: s1 =>
      if c =? dquote then Some ([], s1)
      else if c =? backslash then
        match s1 with
        | [] => None
        | e :: s2 =>
            if e =? ch "u" then
              match s2 with
              | h1 :: h2 :: h3 :: h4 :: r =>
                  match hex4 h1 h2 h3 h4 with
                  | None => None
                  | Some u =>
                      match r with
                      | b :: e2 :: l1 :: l2 :: l3 :: l4 :: r2 =>
                          if is_high_surrogate u && (b =? backslash) && (e2 =? ch "u")
                          then
                            match hex4 l1 l2 l3 l4 with
                            | None => None
                            | Some u2 =>
                                if is_low_surrogate u2
                                then push (join_surrogates u u2) (scanstring r2)
                                else push u (scanstring r)
                            end
                          else push u (scanstring r)
                      | _ => push u (scanstring r)
                      end
                  end
              | _ => None
              end
            else
              match simple_escape e with
              | Some x => push x (scanstring s2)
              | None => None
              end
        end
      else if c <? 32 then None
      else push c (scanstring s1)
  end.

Fixpoint span {A} (p : A -> bool) (l : list A) : list A * list A :=
  match l with
  | [] => ([], [])
  | x :: l' =>
      if p x then let '(a, b) := span p l' in (x :: a, b) else ([], l)
  end.

Definition digits_value (ds : str) : Z :=
  fold_left (fun acc d => (acc * 10 + Z.of_N (d - 48))%Z) ds 0%Z.

(** The integer part [0|[1-9][0-9]*]. *)
Definition match_int_part (s : str) : option (str * str) :=
  match s with
  | c :: s' =>
      if c =? ch "0" then Some ([c], s')
      else if is_digit c then Some (span is_digit s)
      else None
  | [] => None
  end.

(** The optional fraction [\.[0-9]+]. *)
Definition match_frac (s : str) : str * str :=
  match s with
  | c :: s' =>
      if c =? ch "." then
        match span is_digit s' with
        | ([], _) => ([], s)
        | (ds, r) => (ds, r)
        end
      else ([], s)
  | [] => ([], s)
  end.

(** The optional exponent [[eE][-+]?[0-9]+], as a signed value. *)
Definition match_exp (s : str) : option Z * str :=
  match s with
  | c :: s' =>
      if (c =? ch "e") || (c =? ch "E") then
        let '(negative, s'') :=
          match s' with
          | sg :: t =>
              if sg =? ch "-" then (true, t)
              else if sg =? ch "+" then (false, t)
              else (false, s')
          | [] => (false, s')
          end in
        match span is_digit s'' with
        | ([], _) => (None, s)
        | (ds, r) =>
            (Some (if negative then (- digits_value ds)%Z else digits_value ds), r)
        end
      else (None, s)
  | [] => (None, s)
  end.

(** A number: an optional minus sign, the integer part, the optional
    fraction and the optional exponent. *)
Definition match_number (s : str) : option (value * str) :=
  let '(negative, s1) :=
    match s with
    | c :: s' => if c =? ch "-" then (true, s') else (false, s)
    | [] => (false, s)
    end in
  match match_int_part s1 with
  | None => None
  | Some (ip, s2) =>
      let '(fp, s3) := match_frac s2 in
      let '(ex, s4) := match_exp s3 in
      let sign (z : Z) := if negative then (- z)%Z else z in
      match fp, ex with
      | [], None => Some (VInt (sign (digits_value ip)), s4)
      | _, _ =>
          let e := match ex with Some x => x | None => 0%Z end in
          Some (VFloat (FDec (sign (digits_value (ip ++ fp)))
                             (e - Z.of_nat (length fp))%Z), s4)
      end
  end.

Fixpoint dict_get (d : list (str * value)) (k : str) : option value :=
  match d with
  | [] => None
  | (k', v) :: d' => if decide (k' = k) then Some v else dict_get d' k
  end.

(** [d[k] = v]: an existing key keeps its place. *)
Fixpoint dict_set (d : list (str * value)) (k : str) (v : value) : list (str * value) :=
  match d with
  | [] => [(k, v)]
  | (k', v') :: d' =>
      if decide (k' = k) then (k, v) :: d' else (k', v') :: dict_set d' k v
  end.

Inductive parse (A : Type) :=
| Parsed (a : A) (rest : str)
| Invalid
| Exhausted.
Arguments Parsed {A} a rest.
Arguments Invalid {A}.
Arguments Exhausted {A}.

Definition literal (l : str) (v : value) (s : str) : parse value :=
  match strip_prefix l s with
  | Some r => Parsed v r
  | None => Invalid
  end.

Definition scan_atom (s : str) : parse value :=
  match s with
  | [] => Invalid
  | c :: _ =>
      if c =? ch "n" then literal (py "null") VNone s
      else if c =? ch "t" then literal (py "true") (VBool true) s
      else if c =? ch "f" then literal (py "false") (VBool false) s
      else if c =? ch "N" then literal (py "NaN") (VFloat FNaN) s
      else if c =? ch "I" then literal (py "Infinity") (VFloat (FInf false)) s
      else
        match strip_prefix (py "-Infinity") s with
        | Some r => Parsed (VFloat (FInf true)) r
        | None =>
            match match_number s with
            | Some (v, r) => Parsed v r
            | None => Invalid
            end
        end
  end.

(** [scan_once], [JSONObject] and [JSONArray]. The members and elements
    loops are entered after the opening bracket and the first look-ahead. *)
Fixpoint scan_once (fuel : nat) (s : str) : parse value :=
  match fuel with
  | O => Exhausted
  | S fuel' =>
      match s with
      | [] => Invalid
      | c :: s' =>
          if c =? dquote then
            match scanstring s' with
            | Some (body, r) => Parsed (VStr body) r
            | None => Invalid
            end
          else if c =? ch "{" then
            match skip_ws s' with
            | c1 :: r1 =>
                if c1 =? ch "}" then Parsed (VDict []) r1
                else if c1 =? dquote then parse_members fuel' [] r1
                else Invalid
            | [] => Invalid
            end
          else if c =? ch "[" then
            match skip_ws s' with
            | c1 :: r1 =>
                if c1 =? ch "]" then Parsed (VList []) r1
                else parse_elements fuel' [] (c1 :: r1)
            | [] => Invalid
            end
          else scan_atom s
      end
  end

with parse_members (fuel : nat) (acc : list (str * value)) (s : str) : parse value :=
  match fuel with
  | O => Exhausted
  | S fuel' =>
      match scanstring s with
      | None => Invalid
      | Some (key, r) =>
          match skip_ws r with
          | c :: r1 =>
              if c =? ch ":" then
                match scan_once fuel' (skip_ws r1) with
                | Parsed v r2 =>
                    let acc' := dict_set acc key v in
                    match skip_ws r2 with
                    | c2 :: r3 =>
                        if c2 =? ch "}" then Parsed (VDict acc') r3
                        else if c2 =? ch "," then
                          match skip_ws r3 with
                          | c3 :: r4 =>
                              if c3 =? dquote then parse_members fuel' acc' r4
                              else Invalid
                          | [] => Invalid
                          end
                        else Invalid
                    | [] => Invalid
                    end
                | Invalid => Invalid
                | Exhausted => Exhausted
                end
              else Invalid
          | [] => Invalid
          end
      end
  end

with parse_elements (fuel : nat) (acc : list value) (s : str) : parse value :=
  match fuel with
  | O => Exhausted
  | S fuel' =>
      match scan_once fuel' s with
      | Parsed v r =>
          match skip_ws r with
          | c :: r1 =>
              if c =? ch "]" then Parsed (VList (acc ++ [v])) r1
              else if c =? ch "," then parse_elements fuel' (acc ++ [v]) (skip_ws r1)
              else Invalid
          | [] => Invalid
          end
      | Invalid => Invalid
      | Exhausted => Exhausted
      end
  end.

(** [json.loads(s)] for a [str] argument: [None] is [JSONDecodeError]. *)
Definition loads (s : str) : option value :=
  match s with
  | 65279 :: _ => None
  | _ =>
      match scan_once (2 * length s + 2) (skip_ws s) with
      | Parsed v r =>
          match skip_ws r with
          | [] => Some v
          | _ :: _ => None
          end
      | Invalid | Exhausted => None
      end
  end.

Definition json_loads (s : value) : result value :=
  match s with
  | VStr text =>
      match loads text with
      | Some v => Ok v
      | None => Err JSONDecodeError
      end
  | _ => Err TypeError
  end.

(** ** Python operations on dynamically typed values *)

(** A float literal denotes zero when its mantissa is zero or its value
    rounds to zero, that is when it is at most half the least subnormal. *)
Definition float_is_zero (f : pyfloat) : bool :=
  match f with
  | FDec m e =>
      (m =? 0)%Z || ((e <? 0)%Z && (Z.abs m * 2 ^ 1075 <=? 10 ^ (- e))%Z)
  | FInf _ | FNaN => false
  end.

Definition truthy (v : value) : bool :=
  match v with
  | VNone => false
  | VBool b => b
  | VInt z => negb (z =? 0)%Z
  | VFloat f => negb (float_is_zero f)
  | VStr s => match s with [] => false | _ => true end
  | VList l => match l with [] => false | _ => true end
  | VDict d => match d with [] => false | _ => true end
  end.

(** [o.get(k, default)] *)
Definition py_get (o : value) (k : str) (default : value) : result value :=
  match o with
  | VDict d =>
      match dict_get d k with
      | Some v => Ok v
      | None => Ok default
      end
  | _ => Err AttributeError
  end.

(** [o[k]] for a string key *)
Definition getitem (o : value) (k : str) : result value :=
  match o with
  | VDict d =>
      match dict_get d k with
      | Some v => Ok v
      | None => Err (KeyError (VStr k))
      end
  | _ => Err TypeError
  end.

(** [o[0]] for a truthy [o] *)
Definition getitem0 (o : value) : result value :=
  match o with
  | VList (x :: _) => Ok x
  | VStr (c :: _) => Ok (VStr [c])
  | VDict _ => Err (KeyError (VInt 0))
  | _ => Err TypeError
  end.

(** [iter(o)], run to the end *)
Definition py_iter (o : value) : result (list value) :=
  match o with
  | VList l => Ok l
  | VStr s => Ok (map (fun c => VStr [c]) s)
  | VDict d => Ok (map (fun kv => VStr (fst kv)) d)
  | _ => Err TypeError
  end.

Definition as_str (v : value) : result str :=
  match v with
  | VStr s => Ok s
  | _ => Err TypeError
  end.

Fixpoint join (sep : str) (parts : list str) : str :=
  match parts with
  | [] => []
  | [p] => p
  | p :: rest => p ++ sep ++ join sep rest
  end.

(** [sep.join(o)] *)
Definition str_join (sep : str) (o : value) : result str :=
  do items <- py_iter o;
  do parts <- mapM as_str items;
  Ok (join sep parts).

(** ** [Processor] *)

Abbreviation row := (gmap (list N) value) (only parsing).

Record Processor := {
  tokenizer : option (str -> result row);
  system_prompt : str;
  seed : Z
}.

Definition DEFAULT_SYSTEM_PROMPT : str :=
  py "Summarize this conversation between a human and AI assistant, "
  ++ py "capturing key points and maintaining context.".

Definition COLUMNS_TO_REMOVE : list str :=
  [ py "original dialog id";
    py "new dialog id";
    py "dialog index";
    py "original dialog info";
    py "log";
    py "prompt" ].

Definition clean_text (text : str) : str :=
  let text := re_sub pat_unwanted [] text in
  strip (re_sub pat_spaces (py " ") text).

(** The call [self.clean_text(v)] on a value that need not be a [str]. *)
Definition call_clean_text (v : value) : result str :=
  do text <- as_str v; Ok (clean_text text).

Definition format_turn (turn : value) : result str :=
  do u <- getitem turn (py "user utterance");
  do user <- call_clean_text u;
  do a <- getitem turn (py "system response");
  do agent <- call_clean_text a;
  Ok (py "user: " ++ user ++ nl ++ py "agent: " ++ agent).

Definition format_conversation (log : value) : result str :=
  do turns <- py_iter log;
  do blocks <- mapM format_turn turns;
  Ok (join nl blocks).

Definition extract_summary (original_info : value) : result str :=
  do info <- json_loads original_info;
  do summaries <- py_get info (py "summaries") (VDict []);
  do abstractive <- py_get summaries (py "abstractive_summaries") (VList []);
  if truthy abstractive
  then do first <- getitem0 abstractive; str_join (py " ") first
  else Ok [].

Definition generate_prompt (self : Processor) (conversation : str)
    (summary : option str) : str :=
  let response_part :=
    match summary with
    | Some (c :: s) => py "### Response:" ++ nl ++ (c :: s)
    | Some [] | None => py "### Response:" ++ nl
    end in
  py "### Instruction: " ++ system_prompt self ++ nl ++ nl
  ++ py "### Input:" ++ nl ++ conversation ++ nl ++ nl
  ++ response_part.

Record Processed := {
  conversation : str;
  summary : str;
  text : str
}.

Definition sample_get (sample : row) (k : str) (default : value) : value :=
  match sample !! k with
  | Some v => v
  | None => default
  end.

Definition sample_getitem (sample : row) (k : str) : result value :=
  match sample !! k with
  | Some v => Ok v
  | None => Err (KeyError (VStr k))
  end.

Definition process_sample (self : Processor) (sample : row) : result Processed :=
  do conversation <- format_conversation (sample_get sample (py "log") (VList []));
  do info <- sample_getitem sample (py "original dialog info");
  do summary <- extract_summary info;
  Ok {| conversation := conversation;
        summary := summary;
        text := generate_prompt self conversation
                  (match strip summary with
                   | _ :: _ => Some summary
                   | [] => None
                   end) |}.

(** The dictionary [process_sample] returns, as a row. *)
Definition Processed_row (p : Processed) : row :=
  <[py "conversation" := VStr (conversation p)]>
  (<[py "summary" := VStr (summary p)]>
  (<[py "text" := VStr (text p)]> ∅)).

(** ** The [datasets] operations the driver calls

    A [Dataset] is a table: its column names and its rows, each row read as
    a dictionary from column name to value. A [DatasetDict] is a dictionary
    from split name to [Dataset], kept in insertion order. *)

Record Dataset := {
  column_names : gset (list N);
  rows : list row
}.

Inductive Corpus :=
| Single (data : Dataset)
| Named (splits : list (str * Dataset)).

(** [Dataset.select(indices)] *)
Definition Dataset_select (indices : list nat) (d : Dataset) : Dataset :=
  {| column_names := column_names d;
     rows := omap (fun i => rows d !! i) indices |}.

(** [Dataset.map(function)]: the dictionary the function returns updates
    the row; an empty dataset is returned as it is. *)
Definition Dataset_map (function : row -> result row) (d : Dataset) : result Dataset :=
  match rows d with
  | [] => Ok d
  | _ :: _ =>
      do outs <- mapM function (rows d);
      Ok {| column_names := column_names d ∪ ⋃ (dom <$> outs);
            rows := zip_with (fun out r => out ∪ r) outs (rows d) |}
  end.

(** [Dataset.remove_columns(names)] raises [ValueError] when a name is not
    a column of the dataset. *)
Definition Dataset_remove_columns (names : list str) (d : Dataset) : result Dataset :=
  if forallb (fun n => bool_decide (n ∈ column_names d)) names
  then Ok {| column_names := column_names d ∖ list_to_set names;
             rows := (fun r => foldr delete r names) <$> rows d |}
  else Err ValueError.

Section Pipeline.

(** The generators behind [Dataset.shuffle]: with a seed the permutation
    is drawn from a fresh generator made from the seed; without one it is
    drawn from the ambient generator of the process, which advances. *)
Context {G : Type}.
Variable seeded_permutation : Z -> nat -> list nat.
Variable ambient_permutation : G -> nat -> list nat * G.

Definition Dataset_shuffle (seed : option Z) (d : Dataset) (g : G) : Dataset * G :=
  match seed with
  | Some s => (Dataset_select (seeded_permutation s (length (rows d))) d, g)
  | None =>
      let '(p, g') := ambient_permutation g (length (rows d)) in
      (Dataset_select p d, g')
  end.

Definition map_process_sample (self : Processor) (sample : row) : result row :=
  do p <- process_sample self sample; Ok (Processed_row p).

Definition map_tokenizer (tok : str -> result row) (x : row) : result row :=
  do t <- sample_getitem x (py "text");
  do text <- as_str t;
  tok text.

Definition _process (self : Processor) (tokenize : bool) (data : Dataset) (g : G)
    : result Dataset * G :=
  let '(shuffled, g) := Dataset_shuffle (Some (seed self)) data g in
  (do mapped <- Dataset_map (map_process_sample self) shuffled;
   do pruned <- Dataset_remove_columns COLUMNS_TO_REMOVE mapped;
   match tokenize, tokenizer self with
   | true, Some tok => Dataset_map (map_tokenizer tok) pruned
   | _, _ => Ok pruned
   end, g).

(** The dictionary comprehension over [dataset.items()]. *)
Fixpoint process_splits (self : Processor) (tokenize : bool)
    (splits : list (str * Dataset)) (g : G) : result (list (str * Dataset)) * G :=
  match splits with
  | [] => (Ok [], g)
  | (k, v) :: rest =>
      match _process self tokenize v g with
      | (Err e, g) => (Err e, g)
      | (Ok v', g) =>
          let '(r, g) := process_splits self tokenize rest g in
          (do rest' <- r; Ok ((k, v') :: rest'), g)
      end
  end.

Definition process_dataset (self : Processor) (dataset : Corpus) (tokenize : bool)
    (g : G) : result Corpus * G :=
  match dataset with
  | Named splits =>
      let '(r, g) := process_splits self tokenize splits g in
      (do out <- r; Ok (Named out), g)
  | Single data =>
      let '(r, g) := _process self tokenize data g in
      (do out <- r; Ok (Single out), g)
  end.

(** The split as [_process] sees it after the shuffle. *)
Definition shuffled (self : Processor) (data : Dataset) : Dataset :=
  Dataset_select (seeded_permutation (seed self) (length (rows data))) data.

(** [_process] without the generator. *)
Definition process_pure (self : Processor) (tokenize : bool) (data : Dataset)
    : result Dataset :=
  do mapped <- Dataset_map (map_process_sample self) (shuffled self data);
  do pruned <- Dataset_remove_columns COLUMNS_TO_REMOVE mapped;
  match tokenize, tokenizer self with
  | true, Some tok => Dataset_map (map_tokenizer tok) pruned
  | _, _ => Ok pruned
  end.

End Pipeline.

(** ** Example data *)

(** JSON text is written with ['] standing for the double quote. *)
Definition json_text (s : string) : str :=
  map (fun c => if c =? ch "'" then dquote else c) (py s).
Arguments json_text s%_string.

Definition greeting_record : row :=
  <[py "log" :=
      VList [VDict [(py "user utterance", VStr (py "Hi http://x.com"));
                    (py "system response", VStr (py "Hello @bob"))]]]>
  (<[py "original dialog info" :=
      VStr (json_text "{'summaries':{'abstractive_summaries':[['Greeting exchange.']]}}")]>
   ∅).


Definition default_processor : Processor :=
  {| tokenizer := None; system_prompt := DEFAULT_SYSTEM_PROMPT; seed := 42 |}.

(** A record with metadata and no [log] field. *)
Definition no_log_record : row :=
  <[py "original dialog info" := VStr (json_text "{}")]> ∅.

(** ** Typed turns, and the lines of a transcript *)

Record Turn := {
  user_utterance : str;
  system_response : str
}.

Definition Turn_dict (t : Turn) : value :=
  VDict [(py "user utterance", VStr (user_utterance t));
         (py "system response", VStr (system_response t))].

Definition turn_lines (t : Turn) : list str :=
  [py "user: " ++ clean_text (user_utterance t);
   py "agent: " ++ clean_text (system_response t)].

(** [s.split(sep)] for a separator of one character. *)
Fixpoint split_on (sep : char) (s : str) : list str :=
  match s with
  | [] => [[]]
  | c :: s' =>
      if c =? sep then [] :: split_on sep s'
      else
        match split_on sep s' with
        | l :: ls => (c :: l) :: ls
        | [] => [[c]]
        end
  end.

(** ** What the properties of [clean_text] speak of *)

(** A string that is matched in full by [http\S+], by [@[^\s]+] and by
    [\^[^ ]+]. *)
Definition matches_url (m : str) : Prop :=
  exists rest, m = py "http" ++ rest /\ rest <> []
               /\ Forall (fun c => isspace c = false) rest.

Definition matches_mention (m : str) : Prop :=
  exists rest, m = py "@" ++ rest /\ rest <> []
               /\ Forall (fun c => isspace c = false) rest.

Definition matches_caret (m : str) : Prop :=
  exists rest, m = py "^" ++ rest /\ rest <> [] /\ Forall (fun c => c <> 32) rest.

Definition contains (P : str -> Prop) (s : str) : Prop :=
  exists before m after, s = before ++ m ++ after /\ P m.

(** The start of an unwanted token: what [pat_unwanted] looks for. *)
Inductive unwanted_at : str -> Prop :=
| url_at c t : isspace c = false -> unwanted_at (py "http" ++ c :: t)
| mention_at c t : isspace c = false -> unwanted_at (py "@" ++ c :: t)
| caret_at c t : c <> 32 -> unwanted_at (py "^" ++ c :: t).

(** The two substitutions of [clean_text]. *)
Definition remove_unwanted : str -> str := re_sub pat_unwanted [].

Definition collapse_spaces : str -> str := re_sub pat_spaces (py " ").

(** No position of the text starts an unwanted token. *)
Fixpoint no_unwanted (s : str) : Prop :=
  match s with
  | [] => True
  | _ :: s' => pat_unwanted s = None /\ no_unwanted s'
  end.

(** Every whitespace character is one blank, followed by no whitespace. *)
Fixpoint collapsed (s : str) : Prop :=
  match s with
  | [] => True
  | c :: s' =>
      (isspace c = true ->
       c = 32 /\ match s' with c' :: _ => isspace c' = false | [] => True end)
      /\ collapsed s'
  end.

(** What a scanner call has to give: a result, and on success a rest that
    is shorter than the text. *)
Definition runs (res : parse value) (s : str) : Prop :=
  res <> Exhausted
  /\ forall v r, res = Parsed v r -> (length r < length s)%nat.

(** ** What the properties of the driver speak of *)

(** The row [_process] hands to the tokenizer step. *)
Definition pruned_row (p : Processed) (raw : row) : row :=
  foldr delete (Processed_row p ∪ raw) COLUMNS_TO_REMOVE.

(** The encoding merged into a record: the tokenizer's, when the text is
    tokenized, and no field otherwise. *)
Definition token_fields (self : Processor) (tokenize : bool) (p : Processed)
    (enc : row) : Prop :=
  match tokenize, tokenizer self with
  | true, Some tok => tok (text p) = Ok enc
  | _, _ => enc = ∅
  end.

(** The encodings of the tokenizer name no dropped column. *)
Definition tokenizer_fields_kept (self : Processor) : Prop :=
  forall tok text enc k,
    tokenizer self = Some tok -> tok text = Ok enc ->
    k ∈ COLUMNS_TO_REMOVE -> enc !! k = None.

(** A record [rec] of the output against the raw record [raw] it comes
    from: a dropped column is there only as a field of the encoding, every
    other raw field is kept, the three new fields are there, and so are
    the fields of the encoding. *)
Definition pruned_record (self : Processor) (tokenize : bool) (raw rec : row) : Prop :=
  exists p enc,
    process_sample self raw = Ok p
    /\ token_fields self tokenize p enc
    /\ (forall k, k ∈ COLUMNS_TO_REMOVE -> rec !! k = enc !! k)
    /\ (tokenize = false \/ tokenizer_fields_kept self ->
        forall k, k ∈ COLUMNS_TO_REMOVE -> rec !! k = None)
    /\ (forall k, k ∉ COLUMNS_TO_REMOVE -> is_Some (raw !! k) -> is_Some (rec !! k))
    /\ is_Some (rec !! py "conversation")
    /\ is_Some (rec !! py "summary")
    /\ is_Some (rec !! py "text")
    /\ (forall k, is_Some (enc !! k) -> rec !! k = enc !! k).

(** The splits of a corpus, in order. *)
Definition corpus_splits (c : Corpus) : list Dataset :=
  match c with
  | Single data => [data]
  | Named splits => map snd splits
  end.

Definition split_names (c : Corpus) : list str :=
  match c with
  | Single _ => []
  | Named splits => map fst splits
  end.

(** ** Example splits *)

Definition reversed_permutation (_ : Z) (n : nat) : list nat := rev (seq 0 n).

Definition still_generator (g : unit) (n : nat) : list nat * unit := (seq 0 n, g).

Definition example_tokenizer (text : str) : result row :=
  Ok (<[py "input_ids" := VList (map (fun c => VInt (Z.of_N c)) text)]> ∅).

(** A tokenizer that names one of its fields [prompt]. *)
Definition prompt_tokenizer (text : str) : result row :=
  Ok (<[py "prompt" := VList (map (fun c => VInt (Z.of_N c)) text)]> ∅).

Definition prompt_processor : Processor :=
  {| tokenizer := Some prompt_tokenizer;
     system_prompt := DEFAULT_SYSTEM_PROMPT;
     seed := 42 |}.

Definition tokenizing_processor : Processor :=
  {| tokenizer := Some example_tokenizer;
     system_prompt := DEFAULT_SYSTEM_PROMPT;
     seed := 42 |}.

(** A table with the given columns and rows; a row holds [None] in the
    columns it does not fill. *)
Definition table (columns : list str) (records : list row) : Dataset :=
  {| column_names := list_to_set columns;
     rows := (fun r => r ∪ list_to_map ((fun k => (k, VNone)) <$> columns))
             <$> records |}.

Definition example_split : Dataset :=
  table (py "id" :: COLUMNS_TO_REMOVE) [greeting_record].

Definition no_prompt_split : Dataset :=
  table [py "original dialog id"; py "new dialog id"; py "dialog index";
         py "original dialog info"; py "log"]
        [greeting_record].

Definition no_info_split : Dataset :=
  table [py "original dialog id"; py "new dialog id"; py "dialog index";
         py "log"; py "prompt"]
        [<[py "log" := VList []]> ∅].

(** ** What the further properties of the driver speak of *)

(** The values of a record [rec] of the output against its raw record:
    outside the fields of the encoding, the three new fields hold what
    [process_sample] returned and every other field that is not dropped
    holds the raw value. *)
Definition kept_values (self : Processor) (tokenize : bool) (raw rec : row) : Prop :=
  exists p enc,
    process_sample self raw = Ok p
    /\ token_fields self tokenize p enc
    /\ (enc !! py "conversation" = None ->
        rec !! py "conversation" = Some (VStr (conversation p)))
    /\ (enc !! py "summary" = None ->
        rec !! py "summary" = Some (VStr (summary p)))
    /\ (enc !! py "text" = None -> rec !! py "text" = Some (VStr (text p)))
    /\ (forall k, enc !! k = None -> k ∉ COLUMNS_TO_REMOVE ->
        k <> py "conversation" -> k <> py "summary" -> k <> py "text" ->
        rec !! k = raw !! k).



(** A split with every column and no record. *)
Definition empty_split : Dataset := table (py "id" :: COLUMNS_TO_REMOVE) [].

(** Corpora of named splits. *)
Definition example_splits : list (str * Dataset) :=
  [(py "train", example_split); (py "validation", example_split)].

Definition broken_splits : list (str * Dataset) :=
  [(py "train", example_split); (py "validation", no_prompt_split);
   (py "test", no_info_split)].

(** ** [config.py] and [main.py] *)

(** [Processor.__init__] with its defaults. *)
Definition Processor_init (tok : option (str -> result row))
    (prompt : option str) (sd : option Z) : Processor :=
  {| tokenizer := tok;
     system_prompt := default DEFAULT_SYSTEM_PROMPT prompt;
     seed := default 42%Z sd |}.

(** The attributes of the class [Config]; [timestamp] is the time of the
    import as [strftime] formats it. *)
Definition Config (timestamp : str) : list (str * value) :=
  [ (py "dataset_name", VStr (py "Salesforce/dialogstudio"));
    (py "dataset_config", VStr (py "TweetSumm"));
    (py "model_id", VStr (py "meta-llama/Llama-2-70b-hf"));
    (py "lora_target_modules",
       VList [VStr (py "q_proj"); VStr (py "k_proj"); VStr (py "v_proj");
              VStr (py "o_proj"); VStr (py "gate_proj"); VStr (py "up_proj");
              VStr (py "down_proj"); VStr (py "lm_head")]);
    (py "output_dir", VStr (py "./results/" ++ timestamp));
    (py "training_args",
       VDict [ (py "per_device_train_batch_size", VInt 2);
               (py "gradient_accumulation_steps", VInt 3);
               (py "optim", VStr (py "adamw_8bit"));
               (py "save_steps", VInt 10);
               (py "logging_steps", VInt 1);
               (py "learning_rate", VFloat (FDec 2 (-4)));
               (py "max_grad_norm", VFloat (FDec 3 (-1)));
               (py "max_steps", VInt 300);
               (py "warmup_ratio", VFloat (FDec 1 (-1)));
               (py "lr_scheduler_type", VStr (py "cosine")) ]) ].

(** [obj.name] on an instance of a class with the given attributes. *)
Definition getattr (attributes : list (str * value)) (name : str) : result value :=
  match dict_get attributes name with
  | Some v => Ok v
  | None => Err AttributeError
  end.

(** [processed_dataset[name]]: a split of a [DatasetDict], a column of a
    [Dataset]. *)
Inductive item :=
| Split (d : Dataset)
| Column (values : list (option value)).

Definition Corpus_getitem (c : Corpus) (name : str) : result item :=
  match c with
  | Named splits =>
      match list_find (fun kv => fst kv = name) splits with
      | Some (_, (_, d)) => Ok (Split d)
      | None => Err (KeyError (VStr name))
      end
  | Single d =>
      if bool_decide (name ∈ column_names d)
      then Ok (Column ((fun r => r !! name) <$> rows d))
      else Err (KeyError (VStr name))
  end.

Section Main.

(** The framework behind [main]: the two initialisers, which only call
    into it, the loader, the three constructors and the training run. *)
Context {G Model Args Peft Trainer : Type}.
Variable seeded_permutation : Z -> nat -> list nat.
Variable ambient_permutation : G -> nat -> list nat * G.
Variable timestamp : str.
Variable initialize_model : value -> value -> result Model.
Variable initialize_tokenizer : value -> value -> result (str -> result row).
Variable load_dataset : value -> value -> value -> result Corpus.
Variable TrainingArguments : list (str * value) -> result Args.
Variable LoraConfig : list (str * value) -> result Peft.
Variable SFTTrainer : Model -> item -> item -> Peft -> Args -> result Trainer.
Variable train : Trainer -> result unit.

Definition main_training_arguments (config : list (str * value))
    : result (list (str * value)) :=
  do output_dir <- getattr config (py "output_dir");
  do args <- getattr config (py "training_args");
  do optim <- getitem args (py "optim");
  do args <- getattr config (py "training_args");
  do max_grad_norm <- getitem args (py "max_grad_norm");
  do args <- getattr config (py "training_args");
  do warmup_ratio <- getitem args (py "warmup_ratio");
  do args <- getattr config (py "training_args");
  do batch <- getitem args (py "per_device_train_batch_size");
  do args <- getattr config (py "training_args");
  do accumulation <- getitem args (py "gradient_accumulation_steps");
  do args <- getattr config (py "training_args");
  do learning_rate <- getitem args (py "learning_rate");
  do args <- getattr config (py "training_args");
  do logging_steps <- getitem args (py "logging_steps");
  Ok [ (py "output_dir", output_dir);
       (py "optim", optim);
       (py "bf16", VBool true);
       (py "max_grad_norm", max_grad_norm);
       (py "num_train_epochs", VInt 2);
       (py "warmup_ratio", warmup_ratio);
       (py "group_by_length", VBool true);
       (py "gradient_checkpointing", VBool true);
       (py "ddp_find_unused_parameters", VBool false);
       (py "warmup_steps", VInt 2);
       (py "per_device_train_batch_size", batch);
       (py "gradient_accumulation_steps", accumulation);
       (py "learning_rate", learning_rate);
       (py "logging_steps", logging_steps);
       (py "save_strategy", VStr (py "steps"));
       (py "save_steps", VInt 100);
       (py "evaluation_strategy", VStr (py "steps"));
       (py "eval_steps", VInt 50);
       (py "do_eval", VBool true);
       (py "report_to", VNone) ].

Definition main_peft_config (config : list (str * value))
    : result (list (str * value)) :=
  do modules <- getattr config (py "lora_target_modules");
  Ok [ (py "r", VInt 32);
       (py "lora_alpha", VInt 64);
       (py "target_modules", modules);
       (py "bias", VStr (py "none"));
       (py "lora_dropout", VFloat (FDec 5 (-2)));
       (py "task_type", VStr (py "CAUSAL_LM")) ].

(** What [main] does once the dataset is processed. *)
Definition main_train (config : list (str * value)) (model : Model)
    (processed : Corpus) : result unit :=
  do kwargs <- main_training_arguments config;
  do training_args <- TrainingArguments kwargs;
  do kwargs <- main_peft_config config;
  do peft_config <- LoraConfig kwargs;
  do train_dataset <- Corpus_getitem processed (py "train");
  do eval_dataset <- Corpus_getitem processed (py "validation");
  do trainer <- SFTTrainer model train_dataset eval_dataset peft_config training_args;
  train trainer.

(** What [main] does up to the call of [process_dataset]. *)
Definition main_load (config : list (str * value))
    : result (Model * Processor * Corpus) :=
  do model_id <- getattr config (py "model_id");
  do token <- getattr config (py "hf_token");
  do model <- initialize_model model_id token;
  do model_id <- getattr config (py "model_id");
  do token <- getattr config (py "hf_token");
  do tok <- initialize_tokenizer model_id token;
  let processor := Processor_init (Some tok) None None in
  do name <- getattr config (py "dataset_name");
  do dataset_config <- getattr config (py "dataset_config");
  do token <- getattr config (py "hf_token");
  do dataset <- load_dataset name dataset_config token;
  Ok (model, processor, dataset).

Definition main (g : G) : result unit * G :=
  let config := Config timestamp in
  match main_load config with
  | Err e => (Err e, g)
  | Ok (model, processor, dataset) =>
      let '(r, g) :=
        process_dataset seeded_permutation ambient_permutation
          processor dataset true g in
      (do processed <- r; main_train config model processed, g)
  end.

End Main.

(** * Properties *)

(** ** Sanity checks of the embedding *)

Example clean_text_url : clean_text (py "Hi http://x.com") = py "Hi".
Proof. reflexivity. Qed.

Example clean_text_mention : clean_text (py "Hello @bob") = py "Hello".
Proof. reflexivity. Qed.

(** A caret token runs to the next blank, across a tab. *)
Example clean_text_caret :
  clean_text (py "  a ^b" ++ [9] ++ py "c  d" ++ nl ++ py "e ^ f ") = py "a d e ^ f".
Proof. reflexivity. Qed.

Example clean_text_bare_scheme : clean_text (py "http @ ^") = py "http @ ^".
Proof. reflexivity. Qed.

Example loads_nested :
  loads (json_text " [1, -2.50e3, 'x\u0041', true, null, {'a': 1, 'a': 2}] ")
  = Some (VList [VInt 1; VFloat (FDec (-250) 1); VStr (py "xA"); VBool true;
                 VNone; VDict [(py "a", VInt 2)]]).
Proof. vm_compute. reflexivity. Qed.

Example loads_trailing_comma : loads (py "[1,]") = None.
Proof. vm_compute. reflexivity. Qed.

Example loads_leading_zero : loads (py "[01]") = None.
Proof. vm_compute. reflexivity. Qed.

Example extract_summary_keys :
  extract_summary (VStr (json_text "{'summaries':{'abstractive_summaries':[{'a':1,'b':2}]}}"))
  = Ok (py "a b").
Proof. vm_compute. reflexivity. Qed.

Example extract_summary_number :
  extract_summary (VStr (json_text "{'summaries':{'abstractive_summaries':[[1]]}}"))
  = Err TypeError.
Proof. vm_compute. reflexivity. Qed.

(** C1: the greeting record is processed to the transcript
    [user: Hi / agent: Hello], the summary [Greeting exchange.] and the
    three-section text built from them and the configured system prompt. *)
Theorem process_sample_greeting (self : Processor) :
  process_sample self greeting_record =
  Ok {| conversation := py "user: Hi" ++ nl ++ py "agent: Hello";
        summary := py "Greeting exchange.";
        text := py "### Instruction: " ++ system_prompt self ++ nl ++ nl
                ++ py "### Input:" ++ nl
                ++ py "user: Hi" ++ nl ++ py "agent: Hello" ++ nl ++ nl
                ++ py "### Response:" ++ nl ++ py "Greeting exchange." |}.
Proof.
  unfold process_sample.
  replace (format_conversation (sample_get greeting_record (py "log") (VList [])))
    with (Ok (py "user: Hi" ++ nl ++ py "agent: Hello")) by (vm_compute; reflexivity).
  replace (sample_getitem greeting_record (py "original dialog info"))
    with (Ok (VStr (json_text
      "{'summaries':{'abstractive_summaries':[['Greeting exchange.']]}}")))
    by (vm_compute; reflexivity).
  cbn [bind].
  replace (extract_summary _) with (Ok (py "Greeting exchange."))
    by (vm_compute; reflexivity).
  cbn [bind]. reflexivity.
Qed.

(** ** The result monad *)

Lemma bind_Ok {A B} (m : result A) (k : A -> result B) (b : B) :
  bind m k = Ok b -> exists a, m = Ok a /\ k a = Ok b.
Proof. destruct m as [a|e]; simpl; [eauto | discriminate]. Qed.

(** ** [generate_prompt] *)

Lemma generate_prompt_eq (self : Processor) (c : str) (s : option str) :
  generate_prompt self c s =
  py "### Instruction: " ++ system_prompt self ++ nl ++ nl
  ++ py "### Input:" ++ nl ++ c ++ nl ++ nl
  ++ py "### Response:" ++ nl ++ default [] s.
Proof.
  unfold generate_prompt. destruct s as [[|x s]|]; simpl default;
    rewrite ?app_nil_r; reflexivity.
Qed.

(** C4, as the code has it: the prompt ends with the response header
    followed by the summary it was given, word for word; after the header
    comes nothing exactly when the summary is [None] or the empty string. *)
Theorem generate_prompt_response (self : Processor) (c : str) (s : option str) :
  (py "### Response:" ++ nl ++ default [] s) `suffix_of` generate_prompt self c s
  /\ (py "### Response:" ++ nl) `suffix_of` generate_prompt self (py "C") None
  /\ (py "### Response:" ++ nl ++ py "S")
       `suffix_of` generate_prompt self (py "C") (Some (py "S")).
Proof.
  rewrite !generate_prompt_eq. simpl default. rewrite app_nil_r.
  repeat split; rewrite ?(app_assoc _ _ (py "### Response:" ++ _));
    apply suffix_app_r; rewrite <- ?app_assoc; reflexivity.
Qed.

(** C4 fails as stated: a summary of one blank trims to the empty string,
    yet the prompt does not end with the bare response header. *)
Lemma generate_prompt_blank_summary :
  strip (py " ") = []
  /\ ~ (py "### Response:" ++ nl)
         `suffix_of` generate_prompt default_processor (py "C") (Some (py " ")).
Proof.
  split; [reflexivity|].
  intros [k Hk]. apply (f_equal (@rev N)) in Hk.
  rewrite generate_prompt_eq, !rev_app_distr in Hk. simpl in Hk. discriminate.
Qed.

(** ** [process_sample] *)

Lemma process_sample_Ok (self : Processor) (sample : row) (r : Processed) :
  process_sample self sample = Ok r ->
  exists c info s,
    format_conversation (sample_get sample (py "log") (VList [])) = Ok c
    /\ sample !! py "original dialog info" = Some info
    /\ extract_summary info = Ok s
    /\ r = {| conversation := c; summary := s;
              text := generate_prompt self c
                        (match strip s with _ :: _ => Some s | [] => None end) |}.
Proof.
  unfold process_sample. intros H.
  apply bind_Ok in H as (c & Hc & H).
  apply bind_Ok in H as (info & Hi & H).
  apply bind_Ok in H as (s & Hs & H).
  exists c, info, s. repeat split; try assumption.
  - unfold sample_getitem in Hi.
    destruct (sample !! py "original dialog info"); congruence.
  - congruence.
Qed.

(** C5: the text of a processed record is the instruction section, the
    input section holding the record's conversation word for word, and the
    response header followed by the record's summary when the summary is
    non-empty after trimming and by nothing otherwise. *)
Theorem process_sample_text (self : Processor) (sample : row) (r : Processed) :
  process_sample self sample = Ok r ->
  exists response,
    text r = py "### Instruction: " ++ system_prompt self ++ nl ++ nl
             ++ py "### Input:" ++ nl ++ conversation r ++ nl ++ nl
             ++ py "### Response:" ++ nl ++ response
    /\ (strip (summary r) <> [] -> response = summary r)
    /\ (strip (summary r) = [] ->
        response = [] /\ (py "### Response:" ++ nl) `suffix_of` text r).
Proof.
  intros H. apply process_sample_Ok in H as (c & info & s & _ & _ & _ & ->).
  cbn [text conversation summary]. rewrite generate_prompt_eq.
  destruct (strip s) as [|x t] eqn:Hs; simpl default.
  - exists []. repeat split; try congruence.
    rewrite app_nil_r. rewrite !(app_assoc _ _ (py "### Response:" ++ _)).
    apply suffix_app_r. reflexivity.
  - exists s. repeat split; try congruence.
Qed.

Lemma process_sample_text_witness :
  exists response,
    generate_prompt default_processor (py "user: Hi" ++ nl ++ py "agent: Hello")
      (Some (py "Greeting exchange."))
    = py "### Instruction: " ++ DEFAULT_SYSTEM_PROMPT ++ nl ++ nl
      ++ py "### Input:" ++ nl ++ (py "user: Hi" ++ nl ++ py "agent: Hello")
      ++ nl ++ nl ++ py "### Response:" ++ nl ++ response
    /\ (strip (py "Greeting exchange.") <> [] -> response = py "Greeting exchange.")
    /\ (strip (py "Greeting exchange.") = [] ->
        response = []
        /\ (py "### Response:" ++ nl)
             `suffix_of` generate_prompt default_processor
               (py "user: Hi" ++ nl ++ py "agent: Hello")
               (Some (py "Greeting exchange."))).
Proof.
  apply (process_sample_text default_processor greeting_record
           {| conversation := py "user: Hi" ++ nl ++ py "agent: Hello";
              summary := py "Greeting exchange.";
              text := generate_prompt default_processor
                        (py "user: Hi" ++ nl ++ py "agent: Hello")
                        (Some (py "Greeting exchange.")) |}).
  vm_compute. reflexivity.
Defined.

(** C3, as the code has it: a record without [original dialog info] is
    never processed, and the error is the [KeyError] of that field whenever
    the log formats; a record without [log] is processed as one whose log
    is the empty list. *)
Theorem process_sample_missing_field (self : Processor) (sample : row) :
  (sample !! py "original dialog info" = None ->
     is_Err (process_sample self sample)
     /\ (is_Ok (format_conversation (sample_get sample (py "log") (VList []))) ->
         process_sample self sample
         = Err (KeyError (VStr (py "original dialog info")))))
  /\ (sample !! py "log" = None ->
      process_sample self sample
      = process_sample self (<[py "log" := VList []]> sample)).
Proof.
  split.
  - intros Hnone. unfold process_sample, sample_getitem. rewrite Hnone.
    destruct (format_conversation _) as [c|e]; cbn [bind].
    + split; [eexists; reflexivity | reflexivity].
    + split; [eexists; reflexivity | intros [c Hc]; discriminate].
  - intros Hnone. unfold process_sample, sample_get, sample_getitem.
    rewrite Hnone, lookup_insert_eq.
    rewrite lookup_insert_ne by (intros H; discriminate). reflexivity.
Qed.

Lemma process_sample_missing_field_witness :
  (is_Err (process_sample default_processor ∅)
   /\ process_sample default_processor ∅
      = Err (KeyError (VStr (py "original dialog info"))))
  /\ process_sample default_processor no_log_record
     = process_sample default_processor (<[py "log" := VList []]> no_log_record).
Proof.
  split.
  - destruct (proj1 (process_sample_missing_field default_processor ∅)
                (lookup_empty _))
      as [He Hk].
    split; [exact He | apply Hk; eexists; vm_compute; reflexivity].
  - apply (proj2 (process_sample_missing_field default_processor no_log_record)).
    vm_compute. reflexivity.
Defined.

(** C3 fails as stated: a record with no [log] field is processed. *)
Lemma process_sample_without_log :
  no_log_record !! py "log" = None
  /\ process_sample default_processor no_log_record
     = Ok {| conversation := []; summary := [];
             text := py "### Instruction: " ++ DEFAULT_SYSTEM_PROMPT ++ nl ++ nl
                     ++ py "### Input:" ++ nl ++ nl ++ nl
                     ++ py "### Response:" ++ nl |}.
Proof. split; vm_compute; reflexivity. Qed.

(** ** [extract_summary] *)

Lemma mapM_as_str (frags : list str) : mapM as_str (map VStr frags) = Ok frags.
Proof.
  induction frags as [|f frags IH]; [reflexivity|].
  cbn [map mapM as_str bind]. rewrite IH. reflexivity.
Qed.

(** C2, as the code has it: text that is not valid JSON raises
    [JSONDecodeError]; for a JSON object in which the path
    [summaries.abstractive_summaries] is absent or an empty list the result
    is the empty string; where the path holds a list whose first element is
    a list of strings the result is those strings joined with single
    blanks. Valid JSON of another shape may still raise. *)
Theorem extract_summary_cases (s : str) :
  (loads s = None -> extract_summary (VStr s) = Err JSONDecodeError)
  /\ (forall d, loads s = Some (VDict d) ->
        dict_get d (py "summaries") = None
        \/ (exists d', dict_get d (py "summaries") = Some (VDict d')
              /\ (dict_get d' (py "abstractive_summaries") = None
                  \/ dict_get d' (py "abstractive_summaries") = Some (VList []))) ->
        extract_summary (VStr s) = Ok [])
  /\ (forall d d' frags others, loads s = Some (VDict d) ->
        dict_get d (py "summaries") = Some (VDict d') ->
        dict_get d' (py "abstractive_summaries")
        = Some (VList (VList (map VStr frags) :: others)) ->
        extract_summary (VStr s) = Ok (join (py " ") frags))
  /\ extract_summary (VStr (json_text "{}")) = Ok []
  /\ extract_summary
       (VStr (json_text "{'summaries':{'abstractive_summaries':[['a','b']]}}"))
     = Ok (py "a b")
  /\ extract_summary (VStr (py "not json")) = Err JSONDecodeError.
Proof.
  split; [|split; [|split]].
  - intros H. unfold extract_summary, json_loads. rewrite H. reflexivity.
  - intros d H Hpath. unfold extract_summary, json_loads. rewrite H.
    cbn [bind py_get].
    destruct Hpath as [Hs | (d' & Hs & [Ha | Ha])]; rewrite Hs;
      cbn [bind py_get]; rewrite ?Ha; reflexivity.
  - intros d d' frags others H Hs Ha. unfold extract_summary, json_loads.
    rewrite H. cbn [bind py_get]. rewrite Hs. cbn [bind py_get]. rewrite Ha.
    cbn [bind truthy getitem0]. unfold str_join. cbn [py_iter bind].
    rewrite mapM_as_str. reflexivity.
  - repeat split; vm_compute; reflexivity.
Qed.

Lemma extract_summary_cases_witness :
  extract_summary (VStr (py "{")) = Err JSONDecodeError
  /\ extract_summary (VStr (json_text "{'summaries':{}}")) = Ok []
  /\ extract_summary
       (VStr (json_text "{'summaries':{'abstractive_summaries':[['a','b'],['c']]}}"))
     = Ok (join (py " ") [py "a"; py "b"]).
Proof.
  split; [|split].
  - apply (proj1 (extract_summary_cases (py "{"))). vm_compute. reflexivity.
  - apply (proj1 (proj2 (extract_summary_cases (json_text "{'summaries':{}}")))
             [(py "summaries", VDict [])]).
    + vm_compute. reflexivity.
    + right. exists []. split; [vm_compute; reflexivity | left; reflexivity].
  - apply (proj1 (proj2 (proj2 (extract_summary_cases
             (json_text "{'summaries':{'abstractive_summaries':[['a','b'],['c']]}}"))))
             [(py "summaries", VDict [(py "abstractive_summaries",
                 VList [VList [VStr (py "a"); VStr (py "b")]; VList [VStr (py "c")]])])]
             [(py "abstractive_summaries",
                 VList [VList [VStr (py "a"); VStr (py "b")]; VList [VStr (py "c")]])]
             [py "a"; py "b"] [VList [VStr (py "c")]]);
      vm_compute; reflexivity.
Defined.

(** C2 fails as stated: [[]] is valid JSON, and [extract_summary] raises on
    it instead of returning the empty string. *)
Lemma extract_summary_valid_json_raises :
  loads (py "[]") = Some (VList [])
  /\ extract_summary (VStr (py "[]")) = Err AttributeError.
Proof. split; vm_compute; reflexivity. Qed.

(** ** [re.sub] *)

Section ReSub.

Variable pat : matcher.
Variable repl : str.
Hypothesis pat_progress : forall s r, pat s = Some r -> (length r < length s)%nat.

Lemma re_sub_go_fuel (n m : nat) (s : str) :
  (length s < n)%nat -> (length s < m)%nat ->
  re_sub_go pat repl n s = re_sub_go pat repl m s.
Proof.
  revert m s. induction n as [|n IH]; intros m s Hn Hm; [lia|].
  destruct m as [|m]; [lia|]. simpl.
  destruct (pat s) as [r|] eqn:Hp.
  - apply pat_progress in Hp. f_equal. apply IH; lia.
  - destruct s as [|c s']; [reflexivity|]. simpl in *. f_equal. apply IH; lia.
Qed.

Lemma re_sub_unfold (s : str) :
  re_sub pat repl s =
  match pat s with
  | Some r => repl ++ re_sub pat repl r
  | None =>
      match s with
      | [] => []
      | c :: s' => c :: re_sub pat repl s'
      end
  end.
Proof.
  assert (E : forall n x, re_sub_go pat repl (S n) x =
    match pat x with
    | Some r => repl ++ re_sub_go pat repl n r
    | None => match x with [] => [] | c :: x' => c :: re_sub_go pat repl n x' end
    end) by reflexivity.
  unfold re_sub. rewrite E.
  destruct (pat s) as [r|] eqn:Hp.
  - f_equal. apply pat_progress in Hp. apply re_sub_go_fuel; lia.
  - destruct s as [|c s']; reflexivity.
Qed.

End ReSub.

Lemma drop_while_length {A} (p : A -> bool) (l : list A) :
  (length (drop_while p l) <= length l)%nat.
Proof. induction l as [|x l IH]; simpl; [lia|]. destruct (p x); simpl; lia. Qed.

Lemma drop_while_head {A} (p : A -> bool) (l : list A) :
  match drop_while p l with
  | [] => True
  | x :: _ => p x = false
  end.
Proof.
  induction l as [|x l IH]; simpl; [exact I|].
  destruct (p x) eqn:Hx; [exact IH | exact Hx].
Qed.

Lemma drop_while_id {A} (p : A -> bool) (l : list A) :
  match l with [] => True | x :: _ => p x = false end -> drop_while p l = l.
Proof. destruct l as [|x l]; simpl; [reflexivity|]. intros ->. reflexivity. Qed.

Lemma plus_progress (cls : char -> bool) (s r : str) :
  plus cls s = Some r -> (length r < length s)%nat.
Proof.
  destruct s as [|c s']; simpl; [discriminate|].
  destruct (cls c); [|discriminate]. intros [= <-].
  pose proof (drop_while_length cls s'). lia.
Qed.

(** ** The unwanted-token pattern *)

Lemma strip_prefix_Some (p s r : str) : strip_prefix p s = Some r <-> s = p ++ r.
Proof.
  revert s. induction p as [|x p IH]; intros s; simpl.
  - split; [intros [= ->] | intros ->]; reflexivity.
  - destruct s as [|y s]; [split; discriminate|].
    destruct (N.eqb_spec x y) as [->|Hne].
    + rewrite IH. split; [intros -> | intros [= ->]]; reflexivity.
    + split; [discriminate | intros [= ? ?]; congruence].
Qed.

Lemma plus_Some (cls : char -> bool) (s r : str) :
  plus cls s = Some r <->
  exists c t, s = c :: t /\ cls c = true /\ r = drop_while cls t.
Proof.
  destruct s as [|c s']; simpl.
  - split; [discriminate | intros (c & t & H & _); discriminate].
  - split.
    + destruct (cls c) eqn:Hc; [|discriminate]. intros [= <-]. eauto.
    + intros (c' & t & [= <- <-] & Hc & ->). rewrite Hc. reflexivity.
Qed.

Lemma pat_unwanted_Some (s r : str) :
  pat_unwanted s = Some r ->
  (exists c t, s = py "http" ++ c :: t /\ isspace c = false
               /\ r = drop_while non_space t)
  \/ (exists c t, s = py "@" ++ c :: t /\ isspace c = false
                  /\ r = drop_while non_space t)
  \/ (exists c t, s = py "^" ++ c :: t /\ c <> 32
                  /\ r = drop_while not_blank t).
Proof.
  unfold pat_unwanted, alt, andthen, lit.
  destruct (strip_prefix (py "http") s) as [r1|] eqn:H1.
  - apply strip_prefix_Some in H1 as ->.
    destruct (plus non_space r1) as [r2|] eqn:H2.
    + intros [= <-]. apply plus_Some in H2 as (c & t & -> & Hc & ->).
      left. exists c, t. repeat split. unfold non_space in Hc.
      destruct (isspace c); [discriminate | reflexivity].
    + simpl. discriminate.
  - destruct (strip_prefix (py "@") s) as [r1|] eqn:H2.
    + apply strip_prefix_Some in H2 as ->.
      destruct (plus non_space r1) as [r2|] eqn:H3.
      * intros [= <-]. apply plus_Some in H3 as (c & t & -> & Hc & ->).
        right; left. exists c, t. repeat split. unfold non_space in Hc.
        destruct (isspace c); [discriminate | reflexivity].
      * simpl. discriminate.
    + destruct (strip_prefix (py "^") s) as [r1|] eqn:H3; [|discriminate].
      apply strip_prefix_Some in H3 as ->.
      intros H4. apply plus_Some in H4 as (c & t & -> & Hc & ->).
      right; right. exists c, t. repeat split. unfold not_blank in Hc.
      destruct (N.eqb_spec c 32); [discriminate | assumption].
Qed.

Lemma pat_unwanted_at (s : str) : unwanted_at s -> pat_unwanted s <> None.
Proof.
  unfold pat_unwanted, alt, andthen, lit.
  intros [c t Hc | c t Hc | c t Hc]; simpl.
  - unfold non_space. rewrite Hc. discriminate.
  - unfold non_space. rewrite Hc. discriminate.
  - unfold not_blank. destruct (N.eqb_spec c 32); [contradiction | discriminate].
Qed.

Lemma pat_unwanted_None (s : str) : pat_unwanted s = None <-> ~ unwanted_at s.
Proof.
  split.
  - intros H Hat. exact (pat_unwanted_at s Hat H).
  - intros Hn. destruct (pat_unwanted s) as [r|] eqn:H; [|reflexivity].
    exfalso. apply Hn.
    apply pat_unwanted_Some in H
      as [(c & t & -> & Hc & _) | [(c & t & -> & Hc & _) | (c & t & -> & Hc & _)]];
      constructor; assumption.
Qed.

Lemma pat_unwanted_progress (s r : str) :
  pat_unwanted s = Some r -> (length r < length s)%nat.
Proof.
  intros H. apply pat_unwanted_Some in H
    as [(c & t & -> & _ & ->) | [(c & t & -> & _ & ->) | (c & t & -> & _ & ->)]];
    simpl; match goal with |- context [drop_while ?p ?t] =>
      pose proof (drop_while_length p t) end; lia.
Qed.

(** What follows a removed token is empty or starts with whitespace. *)
Lemma pat_unwanted_rest (s r : str) :
  pat_unwanted s = Some r ->
  match r with [] => True | w :: _ => isspace w = true end.
Proof.
  intros H. apply pat_unwanted_Some in H
    as [(c & t & -> & _ & ->) | [(c & t & -> & _ & ->) | (c & t & -> & _ & ->)]].
  - pose proof (drop_while_head non_space t) as Hh.
    destruct (drop_while non_space t) as [|w ?]; [exact I|].
    unfold non_space in Hh. destruct (isspace w); [reflexivity | discriminate].
  - pose proof (drop_while_head non_space t) as Hh.
    destruct (drop_while non_space t) as [|w ?]; [exact I|].
    unfold non_space in Hh. destruct (isspace w); [reflexivity | discriminate].
  - pose proof (drop_while_head not_blank t) as Hh.
    destruct (drop_while not_blank t) as [|w ?]; [exact I|].
    unfold not_blank in Hh. destruct (N.eqb_spec w 32) as [->|]; [reflexivity | discriminate].
Qed.

(** A token starts with a character that is not whitespace. *)
Lemma unwanted_at_head (c : char) (s : str) :
  unwanted_at (c :: s) -> isspace c = false.
Proof. inversion 1; reflexivity. Qed.

Lemma pat_unwanted_space (w : char) (s : str) :
  isspace w = true -> pat_unwanted (w :: s) = None.
Proof.
  intros Hw. apply pat_unwanted_None. intros H.
  apply unwanted_at_head in H. congruence.
Qed.

Lemma unwanted_at_inv (s : str) :
  unwanted_at s ->
  (exists c t, s = 104 :: 116 :: 116 :: 112 :: c :: t /\ isspace c = false)
  \/ (exists c t, s = 64 :: c :: t /\ isspace c = false)
  \/ (exists c t, s = 94 :: c :: t /\ c <> 32).
Proof.
  intros [c t Hc | c t Hc | c t Hc];
    [left | right; left | right; right]; exists c, t; split;
    solve [reflexivity | assumption].
Qed.

(** A rewriting [F] of the text that keeps every leading non-whitespace
    character in place, and leaves a leading blank a leading blank unless
    it empties the text, creates no token start. *)
Section Preserve.

Variable F : str -> str.
Hypothesis F_nil : F [] = [].
Hypothesis F_head : forall t c x,
  F t = c :: x -> isspace c = false -> exists t', t = c :: t' /\ x = F t'.
Hypothesis F_blank : forall t, F (32 :: t) = [] \/ exists x, F (32 :: t) = 32 :: x.

Lemma unwanted_at_preserved (c : char) (t : str) :
  unwanted_at (c :: F t) -> unwanted_at (c :: t).
Proof.
  intros Hat. apply unwanted_at_inv in Hat
    as [(c4 & t4 & Heq & Hc4) | [(c1 & x & Heq & Hc1) | (c1 & x & Heq & Hc1)]];
    injection Heq as -> HF.
  - apply F_head in HF as (t1 & -> & HF); [|reflexivity]. symmetry in HF.
    apply F_head in HF as (t2 & -> & HF); [|reflexivity]. symmetry in HF.
    apply F_head in HF as (t3 & -> & HF); [|reflexivity]. symmetry in HF.
    apply F_head in HF as (t5 & -> & HF); [|assumption].
    apply (url_at c4 t5 Hc4).
  - apply F_head in HF as (t1 & -> & HF); [|assumption].
    apply (mention_at c1 t1 Hc1).
  - destruct (isspace c1) eqn:Hs.
    + destruct t as [|d t'].
      * rewrite F_nil in HF. discriminate.
      * destruct (N.eq_dec d 32) as [->|Hd].
        -- destruct (F_blank t') as [E | [y E]]; rewrite E in HF;
             [discriminate | injection HF as <- _; contradiction].
        -- apply (caret_at d t' Hd).
    + apply F_head in HF as (t1 & -> & HF); [|assumption].
      apply (caret_at c1 t1 Hc1).
Qed.

Lemma pat_unwanted_preserved (c : char) (t : str) :
  pat_unwanted (c :: t) = None -> pat_unwanted (c :: F t) = None.
Proof.
  rewrite !pat_unwanted_None. intros Hn Hat. apply Hn.
  apply unwanted_at_preserved. assumption.
Qed.

End Preserve.

Lemma no_unwanted_suffix (a b : str) : no_unwanted (a ++ b) -> no_unwanted b.
Proof.
  induction a as [|x a IH]; simpl; [trivial|]. intros [_ H]. apply IH, H.
Qed.

Lemma no_unwanted_drop_while (p : char -> bool) (s : str) :
  no_unwanted s -> no_unwanted (drop_while p s).
Proof.
  induction s as [|c s IH]; simpl; [trivial|].
  intros [H1 H2]. destruct (p c); [apply IH, H2 | split; assumption].
Qed.

(** *** Removing the tokens *)

Lemma remove_unwanted_unfold (s : str) :
  remove_unwanted s =
  match pat_unwanted s with
  | Some r => remove_unwanted r
  | None => match s with [] => [] | c :: s' => c :: remove_unwanted s' end
  end.
Proof.
  unfold remove_unwanted. rewrite (re_sub_unfold _ _ pat_unwanted_progress) at 1.
  reflexivity.
Qed.

Lemma remove_unwanted_nil : remove_unwanted [] = [].
Proof. reflexivity. Qed.

Lemma remove_unwanted_space (w : char) (s : str) :
  isspace w = true -> remove_unwanted (w :: s) = w :: remove_unwanted s.
Proof.
  intros Hw. rewrite remove_unwanted_unfold, (pat_unwanted_space w s Hw).
  reflexivity.
Qed.

Lemma remove_unwanted_head (t : str) (c : char) (x : str) :
  remove_unwanted t = c :: x -> isspace c = false ->
  exists t', t = c :: t' /\ x = remove_unwanted t'.
Proof.
  rewrite remove_unwanted_unfold. destruct (pat_unwanted t) as [r|] eqn:Hp.
  - apply pat_unwanted_rest in Hp. destruct r as [|w r'].
    + rewrite remove_unwanted_nil. discriminate.
    + rewrite (remove_unwanted_space w r' Hp). intros [= <- _] Hc. congruence.
  - destruct t as [|c0 t']; [discriminate|]. intros [= <- <-] _. eauto.
Qed.

Lemma remove_unwanted_blank (t : str) :
  remove_unwanted (32 :: t) = [] \/ exists x, remove_unwanted (32 :: t) = 32 :: x.
Proof. right. rewrite remove_unwanted_space by reflexivity. eauto. Qed.

Lemma remove_unwanted_clean (t : str) : no_unwanted (remove_unwanted t).
Proof.
  remember (length t) as n eqn:Hn. revert t Hn.
  induction n as [n IH] using lt_wf_ind. intros t ->.
  rewrite remove_unwanted_unfold. destruct (pat_unwanted t) as [r|] eqn:Hp.
  - apply (IH (length r)); [apply pat_unwanted_progress, Hp | reflexivity].
  - destruct t as [|c t']; [exact I|]. split.
    + apply (pat_unwanted_preserved remove_unwanted remove_unwanted_nil
               remove_unwanted_head remove_unwanted_blank), Hp.
    + apply (IH (length t')); [simpl; lia | reflexivity].
Qed.

Lemma remove_unwanted_id (s : str) : no_unwanted s -> remove_unwanted s = s.
Proof.
  induction s as [|c s IH]; [reflexivity|]. intros [H1 H2].
  rewrite remove_unwanted_unfold, H1, (IH H2). reflexivity.
Qed.

(** *** Collapsing the whitespace *)

Lemma collapse_spaces_unfold (s : str) :
  collapse_spaces s =
  match s with
  | [] => []
  | c :: s' =>
      if isspace c then 32 :: collapse_spaces (drop_while isspace s')
      else c :: collapse_spaces s'
  end.
Proof.
  unfold collapse_spaces.
  rewrite (re_sub_unfold _ _ (plus_progress isspace)) at 1.
  destruct s as [|c s']; [reflexivity|].
  unfold pat_spaces, plus. destruct (isspace c); reflexivity.
Qed.

Lemma collapse_spaces_nil : collapse_spaces [] = [].
Proof. reflexivity. Qed.

Lemma collapse_spaces_head (t : str) (c : char) (x : str) :
  collapse_spaces t = c :: x -> isspace c = false ->
  exists t', t = c :: t' /\ x = collapse_spaces t'.
Proof.
  rewrite collapse_spaces_unfold. destruct t as [|c0 t']; [discriminate|].
  destruct (isspace c0) eqn:H0.
  - intros [= <- _] Hc. discriminate.
  - intros [= <- <-] _. eauto.
Qed.

Lemma collapse_spaces_blank (t : str) :
  collapse_spaces (32 :: t) = [] \/ exists x, collapse_spaces (32 :: t) = 32 :: x.
Proof. right. rewrite collapse_spaces_unfold. simpl. eauto. Qed.

Lemma collapse_spaces_clean (s : str) :
  no_unwanted s -> no_unwanted (collapse_spaces s).
Proof.
  remember (length s) as n eqn:Hn. revert s Hn.
  induction n as [n IH] using lt_wf_ind. intros s -> Hs.
  rewrite collapse_spaces_unfold. destruct s as [|c s']; [exact I|].
  destruct Hs as [H1 H2]. destruct (isspace c) eqn:Hc.
  - split; [apply pat_unwanted_space; reflexivity|].
    apply (IH (length (drop_while isspace s'))); [|reflexivity|].
    + pose proof (drop_while_length isspace s'). simpl. lia.
    + apply no_unwanted_drop_while, H2.
  - split.
    + apply (pat_unwanted_preserved collapse_spaces collapse_spaces_nil
               collapse_spaces_head collapse_spaces_blank), H1.
    + apply (IH (length s')); [simpl; lia | reflexivity | exact H2].
Qed.

Lemma collapse_spaces_collapsed (s : str) : collapsed (collapse_spaces s).
Proof.
  remember (length s) as n eqn:Hn. revert s Hn.
  induction n as [n IH] using lt_wf_ind. intros s ->.
  rewrite collapse_spaces_unfold. destruct s as [|c s']; [exact I|].
  destruct (isspace c) eqn:Hc.
  - split.
    + intros _. split; [reflexivity|].
      pose proof (drop_while_head isspace s') as Hh.
      rewrite collapse_spaces_unfold.
      destruct (drop_while isspace s') as [|d r]; [exact I|].
      rewrite Hh. exact Hh.
    + apply (IH (length (drop_while isspace s'))); [|reflexivity].
      pose proof (drop_while_length isspace s'). simpl. lia.
  - split; [congruence|].
    apply (IH (length s')); [simpl; lia | reflexivity].
Qed.

Lemma collapsed_id (s : str) : collapsed s -> collapse_spaces s = s.
Proof.
  induction s as [|c s IH]; [reflexivity|]. intros [H1 H2].
  rewrite collapse_spaces_unfold. destruct (isspace c) eqn:Hc.
  - destruct (H1 eq_refl) as [-> Hh].
    rewrite (drop_while_id isspace s Hh), (IH H2). reflexivity.
  - rewrite (IH H2). reflexivity.
Qed.

Lemma collapsed_drop_while (p : char -> bool) (s : str) :
  collapsed s -> collapsed (drop_while p s).
Proof.
  induction s as [|c s IH]; simpl; [trivial|].
  intros [H1 H2]. destruct (p c); [apply IH, H2 | split; assumption].
Qed.

(** *** Trimming *)

Lemma rstrip_snoc (s : str) (c : char) :
  rstrip (s ++ [c]) = if isspace c then rstrip s else s ++ [c].
Proof.
  unfold rstrip. rewrite rev_app_distr. simpl.
  destruct (isspace c); [reflexivity|].
  simpl. rewrite rev_involutive. reflexivity.
Qed.

Lemma rstrip_cons (c : char) (s : str) :
  rstrip (c :: s) =
  match rstrip s with
  | [] => if isspace c then [] else [c]
  | r => c :: r
  end.
Proof.
  induction s as [|x s IH] using rev_ind.
  - change [c] with ([] ++ [c]). rewrite rstrip_snoc.
    destruct (isspace c); reflexivity.
  - rewrite app_comm_cons, !rstrip_snoc. destruct (isspace x).
    + exact IH.
    + destruct s; reflexivity.
Qed.

Lemma rstrip_nil : rstrip [] = [].
Proof. reflexivity. Qed.

Lemma rstrip_head (t : str) (c : char) (x : str) :
  rstrip t = c :: x -> isspace c = false -> exists t', t = c :: t' /\ x = rstrip t'.
Proof.
  destruct t as [|c0 t']; [discriminate|]. rewrite rstrip_cons.
  destruct (rstrip t') as [|d r] eqn:Hr.
  - destruct (isspace c0); [discriminate|]. intros [= <- <-] _. eauto.
  - intros [= <- <-] _. eauto.
Qed.

Lemma rstrip_blank (t : str) :
  rstrip (32 :: t) = [] \/ exists x, rstrip (32 :: t) = 32 :: x.
Proof. rewrite rstrip_cons. destruct (rstrip t); simpl; eauto. Qed.

Lemma rstrip_clean (s : str) : no_unwanted s -> no_unwanted (rstrip s).
Proof.
  induction s as [|c s IH]; [trivial|]. intros [H1 H2].
  pose proof (pat_unwanted_preserved rstrip rstrip_nil rstrip_head rstrip_blank
                c s H1) as Hp.
  specialize (IH H2). rewrite rstrip_cons in *.
  destruct (rstrip s) as [|d r].
  - destruct (isspace c); [exact I | split; [exact Hp | exact I]].
  - split; assumption.
Qed.

Lemma rstrip_collapsed (s : str) : collapsed s -> collapsed (rstrip s).
Proof.
  induction s as [|c s IH]; [trivial|]. intros [H1 H2].
  specialize (IH H2). rewrite rstrip_cons.
  destruct (rstrip s) as [|d r] eqn:Hr.
  - destruct (isspace c) eqn:Hc; [exact I|].
    split; [congruence | exact I].
  - split; [|exact IH]. intros Hc. destruct (H1 Hc) as [-> Hh].
    split; [reflexivity|].
    destruct s as [|d' s']; [discriminate|].
    rewrite rstrip_cons in Hr.
    destruct (rstrip s').
    + destruct (isspace d') eqn:Hd'; [discriminate|].
      injection Hr as <- _. exact Hd'.
    + injection Hr as <- _. exact Hh.
Qed.

Lemma drop_while_idem {A} (p : A -> bool) (l : list A) :
  drop_while p (drop_while p l) = drop_while p l.
Proof. apply drop_while_id, drop_while_head. Qed.

Lemma rstrip_idem (s : str) : rstrip (rstrip s) = rstrip s.
Proof. unfold rstrip. rewrite rev_involutive, drop_while_idem. reflexivity. Qed.

Lemma lstrip_rstrip (s : str) :
  match s with [] => True | c :: _ => isspace c = false end ->
  lstrip (rstrip s) = rstrip s.
Proof.
  intros Hh. apply drop_while_id. destruct s as [|c s]; [exact I|].
  rewrite rstrip_cons. destruct (rstrip s); [|exact Hh].
  rewrite Hh. exact Hh.
Qed.

Lemma strip_idem (s : str) : strip (strip s) = strip s.
Proof.
  unfold strip. rewrite (lstrip_rstrip (lstrip s)) by apply drop_while_head.
  apply rstrip_idem.
Qed.

Lemma strip_clean (s : str) : no_unwanted s -> no_unwanted (strip s).
Proof. intros H. apply rstrip_clean, no_unwanted_drop_while, H. Qed.

Lemma strip_collapsed (s : str) : collapsed s -> collapsed (strip s).
Proof. intros H. apply rstrip_collapsed, collapsed_drop_while, H. Qed.

(** *** [clean_text] *)

Lemma clean_text_eq (t : str) :
  clean_text t = strip (collapse_spaces (remove_unwanted t)).
Proof. reflexivity. Qed.

Lemma clean_text_clean (t : str) : no_unwanted (clean_text t).
Proof.
  rewrite clean_text_eq.
  apply strip_clean, collapse_spaces_clean, remove_unwanted_clean.
Qed.

Lemma clean_text_collapsed (t : str) : collapsed (clean_text t).
Proof. rewrite clean_text_eq. apply strip_collapsed, collapse_spaces_collapsed. Qed.

Lemma no_unwanted_at (s before after : str) :
  no_unwanted s -> s = before ++ after -> ~ unwanted_at after.
Proof.
  intros Hs -> Hat. apply no_unwanted_suffix in Hs.
  destruct after as [|c a]; [inversion Hat|].
  destruct Hs as [Hp _]. apply pat_unwanted_None in Hp. contradiction.
Qed.

Lemma no_unwanted_contains (s : str) :
  no_unwanted s ->
  ~ contains matches_url s /\ ~ contains matches_mention s
  /\ ~ contains matches_caret s.
Proof.
  intros Hs. repeat split;
    intros (before & m & after & Heq & rest & -> & Hne & Hall);
    destruct rest as [|c rest]; try contradiction;
    apply Forall_cons in Hall as [Hc _];
    apply (no_unwanted_at s before _ Hs Heq);
    rewrite <- app_assoc; simpl app; constructor; exact Hc.
Qed.

(** C7: [clean_text] is idempotent; its result contains no URL, mention or
    caret token; collapsing the whitespace of the result and trimming it
    change nothing. *)
Theorem clean_text_idempotent (t : str) :
  clean_text (clean_text t) = clean_text t
  /\ ~ contains matches_url (clean_text t)
  /\ ~ contains matches_mention (clean_text t)
  /\ ~ contains matches_caret (clean_text t)
  /\ re_sub pat_spaces (py " ") (clean_text t) = clean_text t
  /\ strip (clean_text t) = clean_text t.
Proof.
  assert (Hc : collapse_spaces (clean_text t) = clean_text t)
    by apply collapsed_id, clean_text_collapsed.
  assert (Hs : strip (clean_text t) = clean_text t)
    by (rewrite clean_text_eq; apply strip_idem).
  split; [|split; [|split; [|split; [|split]]]];
    try apply (no_unwanted_contains _ (clean_text_clean t));
    try assumption.
  rewrite (clean_text_eq (clean_text t)),
    (remove_unwanted_id _ (clean_text_clean t)), Hc.
  exact Hs.
Qed.

(** ** [format_conversation] *)

Lemma format_turn_typed (t : Turn) :
  format_turn (Turn_dict t) = Ok (join nl (turn_lines t)).
Proof.
  unfold format_turn, Turn_dict, getitem. cbn [dict_get].
  rewrite decide_True by reflexivity.
  rewrite decide_False by discriminate.
  rewrite decide_True by reflexivity.
  cbn [bind call_clean_text as_str turn_lines join].
  rewrite <- !app_assoc. reflexivity.
Qed.

Lemma mapM_format_turn (turns : list Turn) :
  mapM format_turn (map Turn_dict turns)
  = Ok (map (fun t => join nl (turn_lines t)) turns).
Proof.
  induction turns as [|t turns IH]; [reflexivity|].
  cbn [map mapM]. rewrite format_turn_typed, IH. reflexivity.
Qed.

Lemma join_cons (sep p : str) (q : str) (rest : list str) :
  join sep (p :: q :: rest) = p ++ sep ++ join sep (q :: rest).
Proof. reflexivity. Qed.

Lemma join_turn_lines (turns : list Turn) :
  join nl (map (fun t => join nl (turn_lines t)) turns)
  = join nl (concat (map turn_lines turns)).
Proof.
  induction turns as [|t turns IH]; [reflexivity|].
  destruct turns as [|t' turns]; [reflexivity|].
  cbn [map] in *. rewrite join_cons, IH.
  assert (E : forall a b rest,
    join nl [a; b] ++ nl ++ join nl rest = join nl (a :: b :: rest)
    \/ rest = []).
  { intros a b [|r rest]; [right; reflexivity | left].
    rewrite !join_cons. cbn [join]. rewrite <- !app_assoc. reflexivity. }
  destruct (E (py "user: " ++ clean_text (user_utterance t))
              (py "agent: " ++ clean_text (system_response t))
              (concat (turn_lines t' :: map turn_lines turns))) as [H | H].
  - exact H.
  - discriminate H.
Qed.

Lemma collapsed_no_newline (s : str) : collapsed s -> 10 ∉ s.
Proof.
  induction s as [|c s IH]; [intros _ H; inversion H|].
  intros [H1 H2] Hin. apply elem_of_cons in Hin as [<- | Hin].
  - destruct (H1 eq_refl) as [E _]. discriminate.
  - exact (IH H2 Hin).
Qed.

Lemma turn_lines_no_newline (turns : list Turn) :
  Forall (fun l => 10 ∉ l) (concat (map turn_lines turns)).
Proof.
  induction turns as [|t turns IH]; [constructor|].
  cbn [map concat turn_lines app].
  repeat constructor; try exact IH;
    intros Hin; apply elem_of_app in Hin as [Hin | Hin];
    try (revert Hin; apply collapsed_no_newline, clean_text_collapsed);
    repeat (apply elem_of_cons in Hin as [Hin | Hin]; [discriminate|]);
    inversion Hin.
Qed.

Lemma split_on_line (l : str) : 10 ∉ l -> split_on 10 l = [l].
Proof.
  induction l as [|c l IH]; [reflexivity|]. intros Hn.
  apply not_elem_of_cons in Hn as [Hc Hl]. simpl.
  destruct (N.eqb_spec c 10); [congruence|]. rewrite (IH Hl). reflexivity.
Qed.

Lemma split_on_app (l rest : str) :
  10 ∉ l -> split_on 10 (l ++ nl ++ rest) = l :: split_on 10 rest.
Proof.
  induction l as [|c l IH]; [reflexivity|]. intros Hn.
  apply not_elem_of_cons in Hn as [Hc Hl]. simpl.
  destruct (N.eqb_spec c 10); [congruence|].
  change (l ++ 10 :: rest) with (l ++ nl ++ rest). rewrite (IH Hl). reflexivity.
Qed.

Lemma split_on_join (lines : list str) :
  Forall (fun l => 10 ∉ l) lines ->
  split_on 10 (join nl lines) = match lines with [] => [[]] | _ => lines end.
Proof.
  induction 1 as [|l lines Hl Hall IH]; [reflexivity|].
  destruct lines as [|l' lines].
  - apply split_on_line, Hl.
  - rewrite join_cons, (split_on_app _ _ Hl), IH. reflexivity.
Qed.

(** C6: a log of N turns is formatted to the 2N lines
    [user: clean(utterance)] and [agent: clean(response)], in turn order,
    joined by newlines with none after the last line: splitting the result
    at the newlines gives back exactly these lines. No turns give the
    empty string. *)
Theorem format_conversation_lines (turns : list Turn) :
  let lines := concat (map turn_lines turns) in
  format_conversation (VList (map Turn_dict turns)) = Ok (join nl lines)
  /\ length lines = (2 * length turns)%nat
  /\ Forall (fun l => 10 ∉ l) lines
  /\ split_on 10 (join nl lines) = match turns with [] => [[]] | _ => lines end
  /\ format_conversation (VList []) = Ok [].
Proof.
  intros lines. subst lines. repeat split.
  - unfold format_conversation. cbn [py_iter bind].
    rewrite mapM_format_turn. cbn [bind]. rewrite join_turn_lines. reflexivity.
  - induction turns as [|t turns IH]; [reflexivity|].
    cbn [map concat turn_lines app length]. rewrite IH. simpl. lia.
  - apply turn_lines_no_newline.
  - rewrite (split_on_join _ (turn_lines_no_newline turns)).
    destruct turns; reflexivity.
Qed.

(** ** [json.loads] runs to the end

    The fuel of [loads] never runs out: every call of the scanner is on a
    text shorter than the one before. *)

Lemma scanstring_shorter (s body r : str) :
  scanstring s = Some (body, r) -> (length r < length s)%nat.
Proof.
  remember (length s) as n eqn:Hn. revert s body r Hn.
  induction n as [n IH] using lt_wf_ind. intros s body r -> H.
  assert (Hpush : forall c t body r, (length t < length s)%nat ->
            push c (scanstring t) = Some (body, r) -> (length r < length s)%nat).
  { intros c t b' r' Hlt Hp. unfold push in Hp.
    destruct (scanstring t) as [[b0 r0]|] eqn:Ht; [|discriminate].
    injection Hp as _ <-. specialize (IH _ Hlt t b0 r0 eq_refl Ht). lia. }
  destruct s as [|c s1]; [discriminate|]. cbn [scanstring] in H.
  destruct (c =? dquote); [injection H as _ <-; simpl; lia|].
  destruct (c =? backslash).
  - destruct s1 as [|e s2]; [discriminate|].
    destruct (e =? ch "u").
    + destruct s2 as [|h1 [|h2 [|h3 [|h4 r0]]]]; try discriminate.
      destruct (hex4 h1 h2 h3 h4) as [u|]; [|discriminate].
      destruct r0 as [|b [|e2 [|l1 [|l2 [|l3 [|l4 r2]]]]]];
        try (apply Hpush in H; [exact H | simpl; lia]).
      destruct (is_high_surrogate u && (b =? backslash) && (e2 =? ch "u")).
      * destruct (hex4 l1 l2 l3 l4) as [u2|]; [|discriminate].
        destruct (is_low_surrogate u2);
          (apply Hpush in H; [exact H | simpl; lia]).
      * apply Hpush in H; [exact H | simpl; lia].
    + destruct (simple_escape e); [|discriminate].
      apply Hpush in H; [exact H | simpl; lia].
  - destruct (c <? 32); [discriminate|].
    apply Hpush in H; [exact H | simpl; lia].
Qed.

Lemma span_length {A} (p : A -> bool) (l : list A) :
  (length (snd (span p l)) <= length l)%nat.
Proof.
  induction l as [|x l IH]; simpl; [lia|].
  destruct (p x); [|simpl; lia].
  destruct (span p l) as [a b]. simpl in *. lia.
Qed.

Lemma strip_prefix_length (p s r : str) :
  strip_prefix p s = Some r -> length s = (length p + length r)%nat.
Proof. intros H. apply strip_prefix_Some in H as ->. apply length_app. Qed.

Lemma match_number_shorter (s : str) (v : value) (r : str) :
  match_number s = Some (v, r) -> (length r < length s)%nat.
Proof.
  unfold match_number.
  set (neg := match s with
              | [] => (false, s)
              | c :: s' => if c =? ch "-" then (true, s') else (false, s)
              end).
  assert (Hneg : (length (snd neg) <= length s)%nat).
  { subst neg. destruct s as [|c s']; [simpl; lia|].
    destruct (c =? ch "-"); simpl; lia. }
  destruct neg as [negative s1]. cbn [snd] in Hneg.
  destruct (match_int_part s1) as [[ip s2]|] eqn:Hip; [|discriminate].
  assert (H2 : (length s2 < length s1)%nat).
  { unfold match_int_part in Hip. destruct s1 as [|c s']; [discriminate|].
    destruct (c =? ch "0"); [injection Hip as _ <-; simpl; lia|].
    destruct (is_digit c) eqn:Hc; [|discriminate].
    pose proof (span_length is_digit s') as Hl.
    simpl in Hip. rewrite Hc in Hip.
    destruct (span is_digit s') as [a b]. injection Hip as _ <-.
    simpl in *. lia. }
  destruct (match_frac s2) as [fp s3] eqn:Hfp.
  assert (H3 : (length s3 <= length s2)%nat).
  { unfold match_frac in Hfp. destruct s2 as [|c s']; [injection Hfp as _ <-; lia|].
    destruct (c =? ch "."); [|injection Hfp as _ <-; lia].
    pose proof (span_length is_digit s') as Hl.
    destruct (span is_digit s') as [[|d ds] b]; injection Hfp as _ <-;
      simpl in *; lia. }
  destruct (match_exp s3) as [ex s4] eqn:Hex.
  assert (H4 : (length s4 <= length s3)%nat).
  { unfold match_exp in Hex. destruct s3 as [|c s']; [injection Hex as _ <-; lia|].
    destruct ((c =? ch "e") || (c =? ch "E")); [|injection Hex as _ <-; lia].
    set (sg := match s' with
               | [] => (false, s')
               | x :: t => if x =? ch "-" then (true, t)
                           else if x =? ch "+" then (false, t) else (false, s')
               end) in Hex.
    assert (Hsg : (length (snd sg) <= length s')%nat).
    { subst sg. destruct s' as [|x t]; [simpl; lia|].
      destruct (x =? ch "-"); [simpl; lia|].
      destruct (x =? ch "+"); simpl; lia. }
    destruct sg as [ng s'']. cbn [snd] in Hsg.
    pose proof (span_length is_digit s'') as Hl.
    destruct (span is_digit s'') as [[|d ds] b]; injection Hex as _ <-;
      simpl in *; lia. }
  intros H. assert (r = s4) as ->; [|lia].
  destruct fp, ex; injection H as _ <-; reflexivity.
Qed.

Lemma scan_atom_shorter (s : str) (v : value) (r : str) :
  scan_atom s = Parsed v r -> (length r < length s)%nat.
Proof.
  assert (Hlit : forall l w, (0 < length l)%nat ->
            literal l w s = Parsed v r -> (length r < length s)%nat).
  { intros l w Hl H. unfold literal in H.
    destruct (strip_prefix l s) as [r0|] eqn:Hp; [|discriminate].
    injection H as _ <-. apply strip_prefix_length in Hp. lia. }
  unfold scan_atom. destruct s as [|c s']; [discriminate|].
  repeat match goal with
         | |- context [if ?b then _ else _] =>
             destruct b; [apply Hlit; simpl; lia|]
         end.
  destruct (strip_prefix (py "-Infinity") (c :: s')) as [r0|] eqn:Hp.
  - intros [= _ <-]. apply strip_prefix_length in Hp. simpl in Hp.
    cbn [length]. lia.
  - destruct (match_number (c :: s')) as [[v0 r0]|] eqn:Hm; [|discriminate].
    intros [= _ <-]. apply (match_number_shorter _ _ _ Hm).
Qed.

Lemma skip_ws_length (s : str) : (length (skip_ws s) <= length s)%nat.
Proof. apply drop_while_length. Qed.

Lemma scan_atom_runs (s : str) : scan_atom s <> Exhausted.
Proof.
  unfold scan_atom, literal. destruct s as [|c s']; [discriminate|].
  repeat match goal with
         | |- context [if ?b then _ else _] => destruct b
         | |- context [match strip_prefix ?l ?t with _ => _ end] =>
             destruct (strip_prefix l t)
         | |- context [match match_number ?t with _ => _ end] =>
             destruct (match_number t) as [[? ?]|]
         end; discriminate.
Qed.

Lemma runs_Invalid (s : str) : runs Invalid s.
Proof. split; [discriminate | intros v r H; discriminate]. Qed.

Lemma runs_Parsed (v : value) (r s : str) :
  (length r < length s)%nat -> runs (Parsed v r) s.
Proof. intros H. split; [discriminate | intros v' r' [= _ <-]; exact H]. Qed.

Lemma runs_shorter (res : parse value) (t s : str) :
  (length t <= length s)%nat -> runs res t -> runs res s.
Proof. intros Hl [H1 H2]. split; [exact H1 | intros v r H; specialize (H2 v r H); lia]. Qed.

Lemma scanner_runs (n : nat) :
  (forall s, (2 * length s + 1 <= n)%nat -> runs (scan_once n s) s)
  /\ (forall acc s, (2 * length s + 1 <= n)%nat -> runs (parse_members n acc s) s)
  /\ (forall acc s, (2 * length s + 2 <= n)%nat -> runs (parse_elements n acc s) s).
Proof.
  induction n as [|n (IHs & IHm & IHe)].
  { repeat split; intros; lia. }
  split; [|split].
  - intros s Hn. cbn [scan_once]. destruct s as [|c s']; [apply runs_Invalid|].
    cbn [length] in Hn.
    destruct (c =? dquote).
    { destruct (scanstring s') as [[body r]|] eqn:Hs; [|apply runs_Invalid].
      apply scanstring_shorter in Hs. apply runs_Parsed. simpl. lia. }
    destruct (c =? ch "{").
    { pose proof (skip_ws_length s') as Hw.
      destruct (skip_ws s') as [|c1 r1]; [apply runs_Invalid|]. cbn [length] in Hw.
      destruct (c1 =? ch "}"); [apply runs_Parsed; simpl; lia|].
      destruct (c1 =? dquote); [|apply runs_Invalid].
      apply (runs_shorter _ r1); [simpl; lia|]. apply IHm. lia. }
    destruct (c =? ch "[").
    { pose proof (skip_ws_length s') as Hw.
      destruct (skip_ws s') as [|c1 r1]; [apply runs_Invalid|]. cbn [length] in Hw.
      destruct (c1 =? ch "]"); [apply runs_Parsed; simpl; lia|].
      apply (runs_shorter _ (c1 :: r1)); [simpl; lia|]. apply IHe. simpl. lia. }
    split; [apply scan_atom_runs | apply scan_atom_shorter].
  - intros acc s Hn. cbn [parse_members].
    destruct (scanstring s) as [[key r]|] eqn:Hs; [|apply runs_Invalid].
    apply scanstring_shorter in Hs.
    pose proof (skip_ws_length r) as Hw.
    destruct (skip_ws r) as [|c r1]; [apply runs_Invalid|]. cbn [length] in Hw.
    destruct (c =? ch ":"); [|apply runs_Invalid].
    pose proof (skip_ws_length r1) as Hw1.
    destruct (IHs (skip_ws r1)) as [Hrun Hshort]; [lia|].
    destruct (scan_once n (skip_ws r1)) as [v r2| |];
      [|apply runs_Invalid|contradiction].
    specialize (Hshort v r2 eq_refl).
    pose proof (skip_ws_length r2) as Hw2.
    destruct (skip_ws r2) as [|c2 r3]; [apply runs_Invalid|]. cbn [length] in Hw2.
    destruct (c2 =? ch "}"); [apply runs_Parsed; lia|].
    destruct (c2 =? ch ","); [|apply runs_Invalid].
    pose proof (skip_ws_length r3) as Hw3.
    destruct (skip_ws r3) as [|c3 r4]; [apply runs_Invalid|]. cbn [length] in Hw3.
    destruct (c3 =? dquote); [|apply runs_Invalid].
    apply (runs_shorter _ r4); [lia|]. apply IHm. lia.
  - intros acc s Hn. cbn [parse_elements].
    destruct (IHs s) as [Hrun Hshort]; [lia|].
    destruct (scan_once n s) as [v r| |]; [|apply runs_Invalid|contradiction].
    specialize (Hshort v r eq_refl).
    pose proof (skip_ws_length r) as Hw.
    destruct (skip_ws r) as [|c r1]; [apply runs_Invalid|]. cbn [length] in Hw.
    destruct (c =? ch "]"); [apply runs_Parsed; lia|].
    destruct (c =? ch ","); [|apply runs_Invalid].
    pose proof (skip_ws_length r1) as Hw1.
    apply (runs_shorter _ (skip_ws r1)); [lia|]. apply IHe. lia.
Qed.

(** [loads] gives [None] only where the scanner rejects the text. *)
Lemma loads_runs (s : str) :
  scan_once (2 * length s + 2) (skip_ws s) <> Exhausted.
Proof.
  apply (scanner_runs (2 * length s + 2)).
  pose proof (skip_ws_length s). lia.
Qed.

(** ** The [datasets] operations *)

Lemma mapM_Forall2 {A B} (f : A -> result B) (l : list A) (ys : list B) :
  mapM f l = Ok ys -> Forall2 (fun x y => f x = Ok y) l ys.
Proof.
  revert ys. induction l as [|x l IH]; intros ys; cbn [mapM].
  - intros [= <-]. constructor.
  - intros H. apply bind_Ok in H as (y & Hy & H).
    apply bind_Ok in H as (ys' & Hys & [= <-]).
    constructor; [exact Hy | apply IH, Hys].
Qed.

Lemma Dataset_map_rows (f : row -> result row) (d d' : Dataset) :
  Dataset_map f d = Ok d' ->
  Forall2 (fun r r' => exists out, f r = Ok out /\ r' = out ∪ r) (rows d) (rows d').
Proof.
  unfold Dataset_map. destruct (rows d) as [|r0 rs] eqn:Hrows.
  - intros [= <-]. rewrite Hrows. constructor.
  - intros H. apply bind_Ok in H as (outs & Houts & [= <-]). cbn [rows].
    apply mapM_Forall2 in Houts. clear Hrows.
    induction Houts as [|r out rs' outs' H1 H2 IH]; [constructor|].
    cbn [zip_with]. constructor; [eauto | exact IH].
Qed.

Lemma Dataset_map_columns (f : row -> result row) (d d' : Dataset) (k : list N) :
  Dataset_map f d = Ok d' -> k ∈ column_names d' ->
  k ∈ column_names d
  \/ exists r out, r ∈ rows d /\ f r = Ok out /\ is_Some (out !! k).
Proof.
  unfold Dataset_map. destruct (rows d) as [|r0 rs] eqn:Hrows.
  - intros [= <-]. auto.
  - intros H. apply bind_Ok in H as (outs & Houts & [= <-]). cbn [column_names].
    rewrite elem_of_union, elem_of_union_list.
    intros [Hk | (X & HX & Hk)]; [auto | right].
    apply list_elem_of_fmap in HX as (out & -> & Hout).
    apply mapM_Forall2 in Houts.
    apply list_elem_of_lookup in Hout as [i Hi].
    destruct (Forall2_lookup_r _ _ _ _ _ Houts Hi) as (r & Hr & Hf).
    exists r, out. rewrite <- elem_of_dom.
    split; [apply list_elem_of_lookup; eauto | auto].
Qed.

Lemma Dataset_map_columns_kept (f : row -> result row) (d d' : Dataset) (k : list N) :
  Dataset_map f d = Ok d' -> k ∈ column_names d -> k ∈ column_names d'.
Proof.
  unfold Dataset_map. destruct (rows d) as [|r0 rs].
  - intros [= <-]. auto.
  - intros H. apply bind_Ok in H as (outs & Houts & [= <-]). cbn [column_names].
    rewrite elem_of_union. auto.
Qed.

Lemma forallb_columns (names : list str) (cols : gset (list N)) :
  forallb (fun n => bool_decide (n ∈ cols)) names = true
  <-> Forall (fun n => n ∈ cols) names.
Proof.
  rewrite forallb_forall, Forall_forall. split; intros H n Hn.
  - apply list_elem_of_In in Hn. specialize (H n Hn).
    apply bool_decide_eq_true in H. exact H.
  - apply bool_decide_eq_true, H, list_elem_of_In, Hn.
Qed.

Lemma Dataset_remove_columns_Ok (names : list str) (d d' : Dataset) :
  Dataset_remove_columns names d = Ok d' ->
  Forall (fun n => n ∈ column_names d) names
  /\ rows d' = (fun r => foldr delete r names) <$> rows d.
Proof.
  unfold Dataset_remove_columns.
  destruct (forallb _ names) eqn:Hall; [|discriminate].
  intros [= <-]. split; [apply forallb_columns, Hall | reflexivity].
Qed.

(** The column removal raises nothing but [ValueError]. *)
Lemma Dataset_remove_columns_Err (names : list str) (d : Dataset) (e : exn) :
  Dataset_remove_columns names d = Err e -> e = ValueError.
Proof.
  unfold Dataset_remove_columns. destruct (forallb _ names); congruence.
Qed.

Lemma Dataset_remove_columns_missing (names : list str) (d : Dataset) (k : list N) :
  k ∈ names -> k ∉ column_names d ->
  Dataset_remove_columns names d = Err ValueError.
Proof.
  intros Hk Hn. unfold Dataset_remove_columns.
  destruct (forallb _ names) eqn:Hall; [|reflexivity].
  apply forallb_columns in Hall. rewrite Forall_forall in Hall.
  exfalso. apply Hn, Hall, Hk.
Qed.

Lemma lookup_foldr_delete (r : gmap (list N) value) (names : list str) (k : list N) :
  foldr delete r names !! k = if decide (k ∈ names) then None else r !! k.
Proof.
  induction names as [|n names IH]; cbn [foldr].
  - rewrite decide_False by (intros H; inversion H). reflexivity.
  - destruct (decide (n = k)) as [->|Hne].
    + rewrite lookup_delete_eq, decide_True by constructor. reflexivity.
    + rewrite lookup_delete_ne, IH by exact Hne.
      destruct (decide (k ∈ names)) as [Hin|Hin].
      * rewrite decide_True by (constructor; exact Hin). reflexivity.
      * rewrite decide_False; [reflexivity|].
        intros H. apply elem_of_cons in H as [->|H]; contradiction.
Qed.

(** The fields [process_sample] adds are no dropped columns. *)
Lemma Processed_row_lookup (p : Processed) (k : list N) :
  is_Some (Processed_row p !! k) <->
  k = py "conversation" \/ k = py "summary" \/ k = py "text".
Proof.
  unfold Processed_row. rewrite !lookup_insert_is_Some, lookup_empty.
  split.
  - intros [<- | [_ [<- | [_ [<- | [_ [? H]]]]]]]; auto. discriminate.
  - intros [-> | [-> | ->]]; auto.
    right. split; [discriminate|]. right. split; [discriminate | auto].
Qed.

Lemma new_fields_kept (k : list N) :
  k = py "conversation" \/ k = py "summary" \/ k = py "text" ->
  k ∉ COLUMNS_TO_REMOVE.
Proof.
  intros [-> | [-> | ->]] H;
    repeat (apply elem_of_cons in H as [H | H]; [discriminate|]);
    inversion H.
Qed.

Lemma new_fields_kept_input_ids : py "input_ids" ∉ COLUMNS_TO_REMOVE.
Proof.
  intros H. repeat (apply elem_of_cons in H as [H | H]; [discriminate|]).
  inversion H.
Qed.

(** ** The driver *)

Section PipelineFacts.

Context {G : Type}.
Variable seeded_permutation : Z -> nat -> list nat.
Variable ambient_permutation : G -> nat -> list nat * G.

Local Abbreviation process := (_process seeded_permutation ambient_permutation).
Local Abbreviation pure := (process_pure seeded_permutation).
Local Abbreviation shuf := (shuffled seeded_permutation).
Local Abbreviation splits_process :=
  (process_splits seeded_permutation ambient_permutation).
Local Abbreviation dataset_process :=
  (process_dataset seeded_permutation ambient_permutation).

Lemma process_eq (self : Processor) (tokenize : bool) (data : Dataset) (g : G) :
  process self tokenize data g = (pure self tokenize data, g).
Proof. reflexivity. Qed.

Lemma splits_process_state (self : Processor) (tokenize : bool)
    (splits : list (str * Dataset)) (g g' : G) :
  fst (splits_process self tokenize splits g)
  = fst (splits_process self tokenize splits g')
  /\ snd (splits_process self tokenize splits g) = g.
Proof.
  revert g g'. induction splits as [|[k v] rest IH]; intros g g'; [split; reflexivity|].
  cbn [process_splits]. rewrite !process_eq.
  destruct (pure self tokenize v) as [v'|e]; [|split; reflexivity].
  destruct (IH g g') as [H1 H2].
  destruct (splits_process self tokenize rest g) as [r1 g1].
  destruct (splits_process self tokenize rest g') as [r2 g2].
  simpl in *. subst. split; reflexivity.
Qed.

Lemma Forall2_compose {A B C} (P : A -> B -> Prop) (Q : B -> C -> Prop)
    (l : list A) (k : list B) (m : list C) :
  Forall2 P l k -> Forall2 Q k m ->
  Forall2 (fun x z => exists y, P x y /\ Q y z) l m.
Proof.
  intros H. revert m. induction H as [|x y l k Hxy _ IH]; intros m Hm.
  - inversion Hm. constructor.
  - inversion Hm as [|? z ? m' Hyz Hrest]; subst.
    constructor; [eauto | apply IH, Hrest].
Qed.

Lemma map_process_sample_Ok (self : Processor) (raw out : row) :
  map_process_sample self raw = Ok out ->
  exists p, process_sample self raw = Ok p /\ out = Processed_row p.
Proof.
  unfold map_process_sample. intros H.
  apply bind_Ok in H as (p & Hp & [= <-]). eauto.
Qed.

Lemma pruned_row_lookup (p : Processed) (raw : row) (k : list N) :
  pruned_row p raw !! k
  = if decide (k ∈ COLUMNS_TO_REMOVE) then None else (Processed_row p ∪ raw) !! k.
Proof. apply lookup_foldr_delete. Qed.

Lemma pruned_row_text (p : Processed) (raw : row) :
  pruned_row p raw !! py "text" = Some (VStr (text p)).
Proof.
  rewrite pruned_row_lookup, decide_False
    by (apply new_fields_kept; auto).
  apply lookup_union_Some_l. reflexivity.
Qed.

Lemma map_tokenizer_pruned (tok : str -> result row) (p : Processed) (raw : row) :
  map_tokenizer tok (pruned_row p raw) = tok (text p).
Proof.
  unfold map_tokenizer, sample_getitem. rewrite pruned_row_text. reflexivity.
Qed.

(** Every record of the result, against the raw record at its place in the
    shuffled split. *)
Lemma process_pure_rows (self : Processor) (tokenize : bool) (data out : Dataset) :
  pure self tokenize data = Ok out ->
  Forall2 (fun raw rec =>
      exists p, process_sample self raw = Ok p
        /\ match tokenize, tokenizer self with
           | true, Some tok =>
               exists enc, tok (text p) = Ok enc /\ rec = enc ∪ pruned_row p raw
           | _, _ => rec = pruned_row p raw
           end)
    (rows (shuf self data)) (rows out).
Proof.
  unfold process_pure. intros H.
  apply bind_Ok in H as (mapped & Hmap & H).
  apply bind_Ok in H as (pruned & Hprune & H).
  apply Dataset_map_rows in Hmap.
  apply Dataset_remove_columns_Ok in Hprune as [_ Hrows].
  assert (Hpr : Forall2 (fun raw x =>
            exists p, process_sample self raw = Ok p /\ x = pruned_row p raw)
            (rows (shuf self data)) (rows pruned)).
  { rewrite Hrows. apply Forall2_fmap_r.
    eapply Forall2_impl; [exact Hmap|]. cbn beta.
    intros raw x (o & Ho & ->). apply map_process_sample_Ok in Ho as (p & Hp & ->).
    exists p. split; [exact Hp | reflexivity]. }
  destruct tokenize; [destruct (tokenizer self) as [tok|]|];
    try (injection H as <-; eapply Forall2_impl; [exact Hpr|];
         cbn beta; intros raw x (p & Hp & ->); eauto).
  apply Dataset_map_rows in H.
  eapply Forall2_impl; [exact (Forall2_compose _ _ _ _ _ Hpr H)|]. cbn beta.
  intros raw rec (x & (p & Hp & ->) & (enc & Henc & ->)).
  rewrite map_tokenizer_pruned in Henc. eauto.
Qed.

Lemma pruned_row_record (self : Processor) (raw : row) (p : Processed) :
  process_sample self raw = Ok p ->
  (forall k, k ∈ COLUMNS_TO_REMOVE -> pruned_row p raw !! k = None)
  /\ (forall k, k ∉ COLUMNS_TO_REMOVE -> is_Some (raw !! k) ->
      is_Some (pruned_row p raw !! k))
  /\ (forall k, k = py "conversation" \/ k = py "summary" \/ k = py "text" ->
      is_Some (pruned_row p raw !! k)).
Proof.
  intros _. repeat split; intros k Hk.
  - rewrite pruned_row_lookup, decide_True by exact Hk. reflexivity.
  - intros Hraw. rewrite pruned_row_lookup, decide_False by exact Hk.
    apply lookup_union_is_Some. auto.
  - rewrite pruned_row_lookup, decide_False by (apply new_fields_kept, Hk).
    apply lookup_union_is_Some. left. apply Processed_row_lookup, Hk.
Qed.

Lemma process_pure_pruned (self : Processor) (tokenize : bool) (data out : Dataset) :
  pure self tokenize data = Ok out ->
  Forall2 (pruned_record self tokenize) (rows (shuf self data)) (rows out).
Proof.
  intros H. apply process_pure_rows in H.
  eapply Forall2_impl; [exact H|]. cbn beta. clear H.
  intros raw rec (p & Hp & Hrec).
  destruct (pruned_row_record self raw p Hp) as (Hdrop & Hkeep & Hnew).
  assert (Hplain : rec = pruned_row p raw -> pruned_record self tokenize raw rec
            \/ (tokenize = true /\ exists tok, tokenizer self = Some tok)).
  { intros ->. destruct tokenize eqn:Et; [destruct (tokenizer self) eqn:Etok|];
      [right; eauto | left | left];
      (exists p, ∅; unfold token_fields; rewrite ?Etok;
       split; [exact Hp|]; split; [reflexivity|];
       split; [intros k Hk; rewrite lookup_empty; apply Hdrop, Hk|];
       split; [intros _ k Hk; apply Hdrop, Hk|];
       split; [exact Hkeep|];
       repeat (split; [apply Hnew; auto|]);
       intros k [x Hx]; rewrite lookup_empty in Hx; discriminate). }
  destruct tokenize; [destruct (tokenizer self) as [tok|] eqn:Etok|];
    try (destruct (Hplain Hrec) as [Hr | (Ht & tok' & Htok')];
         [exact Hr | congruence]).
  destruct Hrec as (enc & Henc & ->). exists p, enc.
  unfold token_fields. rewrite Etok.
  split; [exact Hp|]. split; [exact Henc|].
  assert (Hcol : forall k, k ∈ COLUMNS_TO_REMOVE ->
            (enc ∪ pruned_row p raw) !! k = enc !! k).
  { intros k Hk. rewrite lookup_union_l; [reflexivity | apply Hdrop, Hk]. }
  split; [exact Hcol|].
  split.
  { intros [Hf | Hkept] k Hk; [discriminate|].
    rewrite (Hcol k Hk). apply (Hkept tok (text p) enc k Etok Henc Hk). }
  split.
  { intros k Hk Hraw. apply lookup_union_is_Some. right. apply Hkeep; assumption. }
  repeat (split; [apply lookup_union_is_Some; right; apply Hnew; auto|]).
  intros k Hk. apply lookup_union_l'. exact Hk.
Qed.

Lemma splits_process_Forall2 (self : Processor) (tokenize : bool)
    (splits out : list (str * Dataset)) (g : G) :
  fst (splits_process self tokenize splits g) = Ok out ->
  Forall2 (fun din dout => pure self tokenize din = Ok dout)
    (map snd splits) (map snd out)
  /\ map fst out = map fst splits.
Proof.
  revert out g. induction splits as [|[k v] rest IH]; intros out g.
  - cbn. intros [= <-]. split; [constructor | reflexivity].
  - cbn [process_splits]. rewrite process_eq.
    destruct (pure self tokenize v) as [v'|e] eqn:Hv; [|discriminate].
    destruct (splits_process self tokenize rest g) as [r g1] eqn:Hr.
    cbn [fst]. intros H. apply bind_Ok in H as (rest' & -> & [= <-]).
    destruct (IH rest' g) as [H1 H2]; [rewrite Hr; reflexivity|].
    cbn [map fst snd]. split; [constructor; assumption | congruence].
Qed.

Lemma dataset_process_Forall2 (self : Processor) (tokenize : bool)
    (dataset out : Corpus) (g : G) :
  fst (dataset_process self dataset tokenize g) = Ok out ->
  Forall2 (fun din dout => pure self tokenize din = Ok dout)
    (corpus_splits dataset) (corpus_splits out)
  /\ split_names out = split_names dataset.
Proof.
  destruct dataset as [data | splits]; cbn [process_dataset].
  - rewrite process_eq. cbn [fst]. intros H.
    apply bind_Ok in H as (d & Hd & [= <-]).
    split; [repeat constructor; exact Hd | reflexivity].
  - destruct (splits_process self tokenize splits g) as [r g1] eqn:Hr.
    cbn [fst]. intros H. apply bind_Ok in H as (o & -> & [= <-]).
    apply (splits_process_Forall2 self tokenize splits o g). rewrite Hr. reflexivity.
Qed.

(** C9, as the code has it: in every split of the result of
    [process_dataset], every record holds a dropped column only where the
    tokenizer itself names a field so (none without tokenization, none for
    a tokenizer that names no such field), and keeps every other field of
    the raw record at its place in the shuffled split, next to the new
    [conversation], [summary] and [text] fields and, when the text is
    tokenized, the fields of its encoding. *)
Theorem process_dataset_prunes (self : Processor) (tokenize : bool)
    (dataset out : Corpus) (g : G) :
  fst (dataset_process self dataset tokenize g) = Ok out ->
  Forall2 (fun din dout =>
      Forall2 (pruned_record self tokenize) (rows (shuf self din)) (rows dout))
    (corpus_splits dataset) (corpus_splits out).
Proof.
  intros H. apply dataset_process_Forall2 in H as [H _].
  eapply Forall2_impl; [exact H|]. cbn beta.
  intros din dout Hd. apply process_pure_pruned; assumption.
Qed.

Lemma mapped_columns (self : Processor) (data mapped : Dataset) (k : list N) :
  Dataset_map (map_process_sample self) (shuf self data) = Ok mapped ->
  k ∈ COLUMNS_TO_REMOVE ->
  k ∈ column_names mapped <-> k ∈ column_names data.
Proof.
  intros Hmap Hk. split.
  - intros Hin.
    destruct (Dataset_map_columns _ _ _ k Hmap Hin) as [H | (r & o & _ & Ho & Hs)].
    + exact H.
    + apply map_process_sample_Ok in Ho as (p & _ & ->).
      apply Processed_row_lookup, new_fields_kept in Hs. contradiction.
  - apply (Dataset_map_columns_kept _ _ _ k Hmap).
Qed.

Lemma process_pure_columns (self : Processor) (tokenize : bool) (data out : Dataset) :
  pure self tokenize data = Ok out ->
  Forall (fun k => k ∈ column_names data) COLUMNS_TO_REMOVE.
Proof.
  unfold process_pure. intros H.
  apply bind_Ok in H as (mapped & Hmap & H).
  apply bind_Ok in H as (pruned & Hprune & _).
  apply Dataset_remove_columns_Ok in Hprune as [Hall _].
  rewrite Forall_forall in *. intros k Hk.
  apply (mapped_columns self data mapped k Hmap Hk), Hall, Hk.
Qed.

(** C10, as the code has it: [process_dataset] succeeds only if every
    split has all six dropped columns; a split that lacks one of them makes
    [_process] fail, with the [ValueError] of the column removal whenever
    the mapping of [process_sample] over the split succeeds. *)
Theorem process_requires_columns (self : Processor) (tokenize : bool) (g : G) :
  (forall dataset out,
     fst (dataset_process self dataset tokenize g) = Ok out ->
     Forall (fun din => Forall (fun k => k ∈ column_names din) COLUMNS_TO_REMOVE)
       (corpus_splits dataset))
  /\ (forall data k,
        k ∈ COLUMNS_TO_REMOVE -> k ∉ column_names data ->
        is_Err (fst (process self tokenize data g))
        /\ (is_Ok (Dataset_map (map_process_sample self) (shuf self data)) ->
            fst (process self tokenize data g) = Err ValueError)).
Proof.
  split.
  - intros dataset out H. apply dataset_process_Forall2 in H as [H _].
    induction H as [|din dout dins douts Hd _ IH]; constructor; [|exact IH].
    apply (process_pure_columns self tokenize din dout Hd).
  - intros data k Hk Hn. rewrite process_eq. cbn [fst]. unfold process_pure.
    destruct (Dataset_map (map_process_sample self) (shuf self data))
      as [mapped|e] eqn:Hmap; cbn [bind].
    + assert (Hm : k ∉ column_names mapped)
        by (rewrite (mapped_columns self data mapped k Hmap Hk); exact Hn).
      rewrite (Dataset_remove_columns_missing _ _ k Hk Hm). cbn [bind].
      split; [eexists; reflexivity | reflexivity].
    + split; [eexists; reflexivity | intros [m Hm]; discriminate].
Qed.

End PipelineFacts.

(** C8: with the seed of the processor fixed, the result of
    [process_dataset] on a corpus, a single split or named splits, does not
    depend on the state of the ambient random generator, which it leaves as
    it found it: two runs give the same records in the same order in every
    split. *)
Theorem process_dataset_deterministic {G : Type}
    (seeded_permutation : Z -> nat -> list nat)
    (ambient_permutation : G -> nat -> list nat * G)
    (self : Processor) (dataset : Corpus) (tokenize : bool) (g g' : G) :
  fst (process_dataset seeded_permutation ambient_permutation self dataset tokenize g)
  = fst (process_dataset seeded_permutation ambient_permutation self dataset tokenize g')
  /\ snd (process_dataset seeded_permutation ambient_permutation self dataset tokenize g)
     = g.
Proof.
  destruct dataset as [data | splits]; cbn [process_dataset].
  - rewrite !process_eq. split; reflexivity.
  - destruct (splits_process_state seeded_permutation ambient_permutation
                self tokenize splits g g') as [H1 H2].
    destruct (process_splits _ _ self tokenize splits g) as [r1 g1].
    destruct (process_splits _ _ self tokenize splits g') as [r2 g2].
    simpl in *. subst. split; reflexivity.
Qed.

(** A tokenizer with the usual field names keeps clear of the dropped
    columns. *)
Lemma example_tokenizer_fields : tokenizer_fields_kept tokenizing_processor.
Proof.
  intros tok text enc k [= <-] [= <-] Hk.
  apply lookup_insert_None. split; [apply lookup_empty|].
  intros <-. revert Hk. apply new_fields_kept_input_ids.
Qed.

Lemma process_dataset_prunes_witness :
  exists out,
    fst (process_dataset reversed_permutation still_generator tokenizing_processor
           (Single example_split) true tt) = Ok out
    /\ Forall2 (fun din dout =>
         Forall2 (pruned_record tokenizing_processor true)
           (rows (shuffled reversed_permutation tokenizing_processor din))
           (rows dout))
       (corpus_splits (Single example_split)) (corpus_splits out).
Proof.
  eexists. split; [vm_compute; reflexivity|].
  apply (process_dataset_prunes reversed_permutation still_generator
           tokenizing_processor true (Single example_split) _ tt).
  vm_compute. reflexivity.
Defined.

(** C9 fails as stated: the fields of the encoding are merged after the
    columns are dropped, so a tokenizer that names a field [prompt] leaves
    a [prompt] field in the record. *)
Lemma process_dataset_keeps_token_field :
  py "prompt" ∈ COLUMNS_TO_REMOVE
  /\ exists out rec,
       fst (process_dataset reversed_permutation still_generator prompt_processor
              (Single example_split) true tt) = Ok (Single out)
       /\ rows out = [rec]
       /\ rec !! py "prompt"
          = Some (VList (map (fun c => VInt (Z.of_N c))
                    (generate_prompt prompt_processor
                       (py "user: Hi" ++ nl ++ py "agent: Hello")
                       (Some (py "Greeting exchange."))))).
Proof.
  split; [repeat constructor|].
  eexists. eexists. split; [vm_compute; reflexivity|].
  split; [reflexivity | vm_compute; reflexivity].
Qed.

Lemma process_requires_columns_witness :
  Forall (fun din => Forall (fun k => k ∈ column_names din) COLUMNS_TO_REMOVE)
    (corpus_splits (Single example_split))
  /\ is_Err (fst (_process reversed_permutation still_generator default_processor
                    false no_prompt_split tt))
  /\ fst (_process reversed_permutation still_generator default_processor
            false no_prompt_split tt) = Err ValueError.
Proof.
  destruct (process_requires_columns reversed_permutation still_generator
              default_processor false tt) as [Ha Hb].
  split.
  - eapply (Ha (Single example_split)). vm_compute. reflexivity.
  - destruct (Hb no_prompt_split (py "prompt")) as [He Hv].
    + vm_compute. repeat constructor.
    + vm_compute. intros H. discriminate H.
    + split; [exact He | apply Hv; eexists; vm_compute; reflexivity].
Defined.

(** C10 fails as stated: a split with records and without the column
    [original dialog info] fails in the mapping of [process_sample], with
    the [KeyError] of that field, before any column is removed. *)
Lemma process_fails_before_removal :
  py "original dialog info" ∈ COLUMNS_TO_REMOVE
  /\ (py "original dialog info" ∉ column_names no_info_split)
  /\ Dataset_map (map_process_sample default_processor)
       (shuffled reversed_permutation default_processor no_info_split)
     = Err (KeyError (VStr (py "original dialog info")))
  /\ fst (_process reversed_permutation still_generator default_processor
            false no_info_split tt)
     = Err (KeyError (VStr (py "original dialog info"))).
Proof.
  split; [|split; [|split]].
  - repeat constructor.
  - vm_compute. intros H. discriminate H.
  - vm_compute. reflexivity.
  - vm_compute. reflexivity.
Qed.

(** * Further properties of the pipeline *)

(** ** [clean_text] *)

Lemma no_unwanted_iff (s : str) :
  no_unwanted s <-> forall before after, s = before ++ after -> ~ unwanted_at after.
Proof.
  split.
  - intros H before after Heq. exact (no_unwanted_at s before after H Heq).
  - induction s as [|c s IH]; [intros _; exact I|]. intros H. split.
    + apply pat_unwanted_None. apply (H [] (c :: s)). reflexivity.
    + apply IH. intros before after ->. apply (H (c :: before) after). reflexivity.
Qed.

(** X1: The texts [clean_text] leaves alone are exactly those with no token
    start, with every whitespace a single blank, and trimmed. *)
Theorem clean_text_fixed_points (s : str) :
  clean_text s = s <->
  (forall before after, s = before ++ after -> ~ unwanted_at after)
  /\ collapsed s /\ strip s = s.
Proof.
  rewrite <- no_unwanted_iff. split.
  - intros H. rewrite <- H at 1 2 3. repeat split.
    + apply clean_text_clean.
    + apply clean_text_collapsed.
    + rewrite H, <- H at 1. rewrite clean_text_eq. rewrite strip_idem.
      rewrite <- clean_text_eq. exact H.
  - intros (Hu & Hc & Hs).
    rewrite clean_text_eq, (remove_unwanted_id s Hu), (collapsed_id s Hc).
    exact Hs.
Qed.

Lemma remove_unwanted_length (t : str) :
  (length (remove_unwanted t) <= length t)%nat.
Proof.
  remember (length t) as n eqn:Hn. revert t Hn.
  induction n as [n IH] using lt_wf_ind. intros t ->.
  rewrite remove_unwanted_unfold. destruct (pat_unwanted t) as [r|] eqn:Hp.
  - apply pat_unwanted_progress in Hp.
    specialize (IH (length r) Hp r eq_refl). lia.
  - destruct t as [|c t']; [simpl; lia|].
    specialize (IH (length t') ltac:(simpl; lia) t' eq_refl). simpl. lia.
Qed.

Lemma collapse_spaces_length (s : str) :
  (length (collapse_spaces s) <= length s)%nat.
Proof.
  remember (length s) as n eqn:Hn. revert s Hn.
  induction n as [n IH] using lt_wf_ind. intros s ->.
  rewrite collapse_spaces_unfold. destruct s as [|c s']; [simpl; lia|].
  pose proof (drop_while_length isspace s') as Hd.
  destruct (isspace c).
  - specialize (IH (length (drop_while isspace s')) ltac:(simpl; lia) _ eq_refl).
    simpl. lia.
  - specialize (IH (length s') ltac:(simpl; lia) s' eq_refl). simpl. lia.
Qed.

Lemma strip_length (s : str) : (length (strip s) <= length s)%nat.
Proof.
  unfold strip, rstrip, lstrip. rewrite length_rev.
  pose proof (drop_while_length isspace (rev (drop_while isspace s))) as H1.
  pose proof (drop_while_length isspace s) as H2.
  rewrite length_rev in H1. lia.
Qed.

(** X2: [clean_text] never makes a text longer. *)
Theorem clean_text_length (t : str) : (length (clean_text t) <= length t)%nat.
Proof.
  rewrite clean_text_eq.
  pose proof (strip_length (collapse_spaces (remove_unwanted t))).
  pose proof (collapse_spaces_length (remove_unwanted t)).
  pose proof (remove_unwanted_length t). lia.
Qed.

Lemma collapsed_blank (s : str) (c : char) :
  collapsed s -> c ∈ s -> isspace c = true -> c = 32.
Proof.
  induction s as [|x s IH]; [intros _ H; inversion H|].
  intros [H1 H2] Hin Hc. apply elem_of_cons in Hin as [-> | Hin].
  - apply (H1 Hc).
  - apply (IH H2 Hin Hc).
Qed.

Lemma collapsed_no_double (s before after : str) (a b : char) :
  collapsed s -> s = before ++ a :: b :: after ->
  isspace a = true -> isspace b = false.
Proof.
  intros Hs -> Ha. induction before as [|x before IH].
  - destruct Hs as [H1 _]. apply (H1 Ha).
  - destruct Hs as [_ H2]. apply (IH H2).
Qed.

Lemma rstrip_last (s : str) (c : char) :
  last (rstrip s) = Some c -> isspace c = false.
Proof.
  unfold rstrip.
  pose proof (drop_while_head isspace (rev s)) as Hh.
  destruct (drop_while isspace (rev s)) as [|x r]; [discriminate|].
  cbn [rev]. rewrite last_snoc. intros [= <-]. exact Hh.
Qed.

Lemma strip_head (s : str) (c : char) :
  head (strip s) = Some c -> isspace c = false.
Proof.
  unfold strip. pose proof (drop_while_head isspace s) as Hh. fold (lstrip s) in Hh.
  destruct (lstrip s) as [|x y]; [discriminate|].
  rewrite rstrip_cons. destruct (rstrip y).
  - rewrite Hh. intros [= <-]. exact Hh.
  - intros [= <-]. exact Hh.
Qed.

(** X3: The whitespace of a cleaned text: only single blanks between other
    characters, so no tab or newline, no two blanks in a row, and no blank
    at either end. *)
Theorem clean_text_whitespace (t : str) :
  (forall c, c ∈ clean_text t -> isspace c = true -> c = 32)
  /\ (forall before after a b,
        clean_text t = before ++ a :: b :: after ->
        isspace a = true -> isspace b = false)
  /\ (forall c, head (clean_text t) = Some c -> isspace c = false)
  /\ (forall c, last (clean_text t) = Some c -> isspace c = false).
Proof.
  pose proof (clean_text_collapsed t) as Hc. repeat split.
  - intros c. apply collapsed_blank, Hc.
  - intros before after a b. apply collapsed_no_double, Hc.
  - intros c. rewrite clean_text_eq. apply strip_head.
  - intros c. rewrite clean_text_eq. apply rstrip_last.
Qed.

Lemma drop_while_all {A} (p : A -> bool) (l : list A) :
  Forall (fun x => p x = true) l -> drop_while p l = [].
Proof. induction 1 as [|x l Hx _ IH]; simpl; [reflexivity|]. rewrite Hx. exact IH. Qed.

Lemma no_unwanted_spaces (t : str) :
  Forall (fun c => isspace c = true) t -> no_unwanted t.
Proof.
  induction 1 as [|c t Hc _ IH]; [exact I|].
  split; [apply pat_unwanted_space, Hc | exact IH].
Qed.

(** X4: A text of whitespace only, the empty text among them, is cleaned to
    the empty text. *)
Theorem clean_text_blank (t : str) :
  Forall (fun c => isspace c = true) t -> clean_text t = [].
Proof.
  intros Ht. rewrite clean_text_eq, (remove_unwanted_id t (no_unwanted_spaces t Ht)).
  destruct Ht as [|c t Hc Ht]; [reflexivity|].
  rewrite collapse_spaces_unfold, Hc, (drop_while_all isspace t Ht).
  reflexivity.
Qed.

Lemma clean_text_blank_witness : clean_text [32; 9; 10; 8195] = [].
Proof.
  apply (clean_text_blank [32; 9; 10; 8195]).
  repeat constructor.
Defined.

(** ** [format_conversation] *)

Lemma mapM_app {A B} (f : A -> result B) (a b : list A) :
  mapM f (a ++ b) = do x <- mapM f a; do y <- mapM f b; Ok (x ++ y).
Proof.
  induction a as [|v a IH]; cbn [app mapM bind].
  - destruct (mapM f b); reflexivity.
  - destruct (f v) as [w|e]; cbn [bind]; [|reflexivity].
    rewrite IH. destruct (mapM f a) as [x|e]; cbn [bind]; [|reflexivity].
    destruct (mapM f b); reflexivity.
Qed.

Lemma mapM_length {A B} (f : A -> result B) (l : list A) (ys : list B) :
  mapM f l = Ok ys -> length ys = length l.
Proof. intros H. apply mapM_Forall2, Forall2_length in H. congruence. Qed.

Lemma join_app (sep : str) (a b : list str) :
  join sep (a ++ b) =
  match a, b with
  | [], _ => join sep b
  | _, [] => join sep a
  | _, _ => join sep a ++ sep ++ join sep b
  end.
Proof.
  induction a as [|p a IH]; [reflexivity|].
  destruct b as [|q b]; [rewrite app_nil_r; reflexivity|].
  destruct a as [|p' a]; [reflexivity|].
  change ((p :: p' :: a) ++ q :: b) with (p :: (p' :: a) ++ q :: b).
  cbn [app] in *. rewrite !join_cons, IH, <- !app_assoc. reflexivity.
Qed.

Lemma format_conversation_list (turns : list value) :
  format_conversation (VList turns)
  = do blocks <- mapM format_turn turns; Ok (join nl blocks).
Proof. reflexivity. Qed.

(** X5: Two logs that format, put one after the other, format to the two
    transcripts joined by one newline; an empty log adds nothing. *)
Theorem format_conversation_app (a b : list value) (x y : str) :
  format_conversation (VList a) = Ok x ->
  format_conversation (VList b) = Ok y ->
  format_conversation (VList (a ++ b))
  = Ok match a, b with
       | [], _ => y
       | _, [] => x
       | _, _ => x ++ nl ++ y
       end.
Proof.
  rewrite !format_conversation_list, mapM_app. intros Ha Hb.
  apply bind_Ok in Ha as (xs & Hxs & [= <-]).
  apply bind_Ok in Hb as (ys & Hys & [= <-]).
  rewrite Hxs, Hys. cbn [bind]. rewrite join_app.
  apply mapM_length in Hxs, Hys.
  destruct a, b, xs, ys; try discriminate; reflexivity.
Qed.

Lemma format_conversation_app_witness :
  format_conversation
    (VList ([Turn_dict {| user_utterance := py "a"; system_response := py "b" |}]
            ++ [Turn_dict {| user_utterance := py "c"; system_response := py "d" |}]))
  = Ok ((py "user: a" ++ nl ++ py "agent: b") ++ nl
        ++ (py "user: c" ++ nl ++ py "agent: d")).
Proof.
  apply (format_conversation_app
           [Turn_dict {| user_utterance := py "a"; system_response := py "b" |}]
           [Turn_dict {| user_utterance := py "c"; system_response := py "d" |}]);
    vm_compute; reflexivity.
Defined.

(** X6: The first turn that does not format decides the outcome: its error is
    the error of the log, whatever comes after it. *)
Theorem format_conversation_first_error (good : list value) (bad : value)
    (rest : list value) (x : str) (e : exn) :
  format_conversation (VList good) = Ok x ->
  format_turn bad = Err e ->
  format_conversation (VList (good ++ bad :: rest)) = Err e.
Proof.
  rewrite !format_conversation_list, mapM_app. intros Hg Hb.
  apply bind_Ok in Hg as (xs & -> & _). cbn [bind mapM]. rewrite Hb. reflexivity.
Qed.

Lemma format_conversation_first_error_witness :
  format_conversation
    (VList ([Turn_dict {| user_utterance := py "a"; system_response := py "b" |}]
            ++ VDict [(py "user utterance", VStr (py "c"))]
            :: [Turn_dict {| user_utterance := py "d"; system_response := py "e" |}]))
  = Err (KeyError (VStr (py "system response"))).
Proof.
  apply (format_conversation_first_error
           [Turn_dict {| user_utterance := py "a"; system_response := py "b" |}]
           (VDict [(py "user utterance", VStr (py "c"))])
           [Turn_dict {| user_utterance := py "d"; system_response := py "e" |}]
           (py "user: a" ++ nl ++ py "agent: b"));
    vm_compute; reflexivity.
Defined.

(** X7: A turn formats exactly when it is a dictionary that holds both
    utterances as strings; its other fields play no part. *)
Theorem format_turn_Ok_iff (turn : value) (x : str) :
  format_turn turn = Ok x <->
  exists d u a,
    turn = VDict d
    /\ dict_get d (py "user utterance") = Some (VStr u)
    /\ dict_get d (py "system response") = Some (VStr a)
    /\ x = py "user: " ++ clean_text u ++ nl ++ py "agent: " ++ clean_text a.
Proof.
  unfold format_turn, getitem, call_clean_text, as_str. split.
  - intros H. destruct turn as [| | | | |l|d]; try discriminate H.
    destruct (dict_get d (py "user utterance")) as [v|] eqn:Hu;
      [|discriminate H].
    destruct v as [| | | |u| |]; try discriminate H.
    destruct (dict_get d (py "system response")) as [w|] eqn:Ha;
      [|discriminate H].
    destruct w as [| | | |a| |]; try discriminate H.
    cbn [bind] in H. injection H as <-. exists d, u, a. auto.
  - intros (d & u & a & -> & Hu & Ha & ->). rewrite Hu, Ha. reflexivity.
Qed.

(** X8: A turn without one of the two fields raises the [KeyError] of the
    first field it lacks; a field that is no string raises [TypeError]. *)
Theorem format_turn_missing_field (d : list (str * value)) :
  (dict_get d (py "user utterance") = None ->
   format_turn (VDict d) = Err (KeyError (VStr (py "user utterance"))))
  /\ (forall u, dict_get d (py "user utterance") = Some (VStr u) ->
      dict_get d (py "system response") = None ->
      format_turn (VDict d) = Err (KeyError (VStr (py "system response"))))
  /\ (forall v, dict_get d (py "user utterance") = Some v ->
      (forall u, v <> VStr u) ->
      format_turn (VDict d) = Err TypeError).
Proof.
  unfold format_turn, getitem, call_clean_text, as_str. repeat split.
  - intros ->. reflexivity.
  - intros u -> ->. reflexivity.
  - intros v -> Hv. destruct v; try reflexivity. destruct (Hv s eq_refl).
Qed.

Lemma format_turn_missing_field_witness :
  format_turn (VDict []) = Err (KeyError (VStr (py "user utterance")))
  /\ format_turn (VDict [(py "user utterance", VStr (py "c"))])
     = Err (KeyError (VStr (py "system response")))
  /\ format_turn (VDict [(py "user utterance", VNone)]) = Err TypeError.
Proof.
  split; [|split].
  - apply (proj1 (format_turn_missing_field [])). reflexivity.
  - apply (proj1 (proj2 (format_turn_missing_field
             [(py "user utterance", VStr (py "c"))])) (py "c"));
      vm_compute; reflexivity.
  - apply (proj2 (proj2 (format_turn_missing_field
             [(py "user utterance", VNone)])) VNone);
      [vm_compute; reflexivity | discriminate].
Defined.

(** ** [extract_summary] *)

(** X9: Valid JSON of the wrong shape raises [AttributeError]: a document that
    is no object, and an object whose [summaries] is no object. *)
Theorem extract_summary_wrong_shape (s : str) (v : value) :
  loads s = Some v ->
  ((forall d, v <> VDict d) -> extract_summary (VStr s) = Err AttributeError)
  /\ (forall d w, v = VDict d ->
        dict_get d (py "summaries") = Some w ->
        (forall d', w <> VDict d') ->
        extract_summary (VStr s) = Err AttributeError).
Proof.
  intros Hl. unfold extract_summary, json_loads. rewrite Hl. cbn [bind]. split.
  - intros Hv. destruct v; try reflexivity. destruct (Hv d eq_refl).
  - intros d w -> Hw Hnd. cbn [py_get]. rewrite Hw. cbn [bind].
    destruct w; try reflexivity. destruct (Hnd d0 eq_refl).
Qed.

Lemma extract_summary_wrong_shape_witness :
  extract_summary (VStr (py "42")) = Err AttributeError
  /\ extract_summary (VStr (json_text "{'summaries': null}")) = Err AttributeError.
Proof.
  split.
  - apply (proj1 (extract_summary_wrong_shape (py "42") (VInt 42) eq_refl)).
    discriminate.
  - apply (proj2 (extract_summary_wrong_shape (json_text "{'summaries': null}")
             (VDict [(py "summaries", VNone)]) eq_refl)
             [(py "summaries", VNone)] VNone);
      [reflexivity | reflexivity | discriminate].
Defined.

(** X10: Any falsy value under [abstractive_summaries] (null, false, zero, the
    empty string, list or object) gives the empty summary. *)
Theorem extract_summary_falsy (s : str) (d d' : list (str * value)) (a : value) :
  loads s = Some (VDict d) ->
  dict_get d (py "summaries") = Some (VDict d') ->
  dict_get d' (py "abstractive_summaries") = Some a ->
  truthy a = false ->
  extract_summary (VStr s) = Ok [].
Proof.
  intros Hl Hs Ha Ht. unfold extract_summary, json_loads.
  rewrite Hl. cbn [bind py_get]. rewrite Hs. cbn [bind py_get]. rewrite Ha.
  cbn [bind]. rewrite Ht. reflexivity.
Qed.

Lemma extract_summary_falsy_witness :
  extract_summary (VStr (json_text "{'summaries':{'abstractive_summaries':null}}"))
  = Ok [].
Proof.
  apply (extract_summary_falsy
           (json_text "{'summaries':{'abstractive_summaries':null}}")
           [(py "summaries", VDict [(py "abstractive_summaries", VNone)])]
           [(py "abstractive_summaries", VNone)] VNone);
    vm_compute; reflexivity.
Defined.

Lemma mapM_as_str_Err (frags : list value) :
  Exists (fun v => forall t, v <> VStr t) frags ->
  mapM as_str frags = Err TypeError.
Proof.
  induction frags as [|v frags IH]; intros H; [inversion H|].
  cbn [mapM]. destruct v as [| | | |t| |]; try reflexivity.
  cbn [as_str bind]. apply Exists_cons in H as [H | H].
  - destruct (H t eq_refl).
  - rewrite (IH H). reflexivity.
Qed.

(** X11: A first summary with a fragment that is no string raises [TypeError]. *)
Theorem extract_summary_bad_fragment (s : str) (d d' : list (str * value))
    (frags others : list value) :
  loads s = Some (VDict d) ->
  dict_get d (py "summaries") = Some (VDict d') ->
  dict_get d' (py "abstractive_summaries") = Some (VList (VList frags :: others)) ->
  Exists (fun v => forall t, v <> VStr t) frags ->
  extract_summary (VStr s) = Err TypeError.
Proof.
  intros Hl Hs Ha Hbad. unfold extract_summary, json_loads.
  rewrite Hl. cbn [bind py_get]. rewrite Hs. cbn [bind py_get]. rewrite Ha.
  cbn [bind truthy getitem0]. unfold str_join. cbn [py_iter bind].
  rewrite (mapM_as_str_Err frags Hbad). reflexivity.
Qed.

Lemma extract_summary_bad_fragment_witness :
  extract_summary
    (VStr (json_text "{'summaries':{'abstractive_summaries':[['a',1]]}}"))
  = Err TypeError.
Proof.
  apply (extract_summary_bad_fragment
           (json_text "{'summaries':{'abstractive_summaries':[['a',1]]}}")
           [(py "summaries",
             VDict [(py "abstractive_summaries", VList [VList [VStr (py "a"); VInt 1]])])]
           [(py "abstractive_summaries", VList [VList [VStr (py "a"); VInt 1]])]
           [VStr (py "a"); VInt 1] []);
    try (vm_compute; reflexivity).
  right. left. discriminate.
Defined.

(** ** [generate_prompt] *)

(** X12: The prompt built with a summary is the prompt built without one,
    followed by the summary: the training text extends the inference
    prompt. *)
Theorem generate_prompt_extends (self : Processor) (c s : str) :
  generate_prompt self c (Some s) = generate_prompt self c None ++ s.
Proof.
  rewrite !generate_prompt_eq. cbn [default]. rewrite app_nil_r, <- !app_assoc.
  reflexivity.
Qed.

(** ** [process_sample] *)

(** X13: [process_sample] reads the [log] and [original dialog info] fields
    only: records that agree on the two are processed alike, whatever
    their other fields. *)
Theorem process_sample_reads_two_fields (self : Processor) (sample sample' : row) :
  sample !! py "log" = sample' !! py "log" ->
  sample !! py "original dialog info" = sample' !! py "original dialog info" ->
  process_sample self sample = process_sample self sample'.
Proof.
  intros Hl Hi. unfold process_sample, sample_get, sample_getitem.
  rewrite Hl, Hi. reflexivity.
Qed.

Lemma process_sample_reads_two_fields_witness :
  process_sample default_processor greeting_record
  = process_sample default_processor (<[py "prompt" := VNone]> greeting_record).
Proof.
  apply (process_sample_reads_two_fields default_processor greeting_record
           (<[py "prompt" := VNone]> greeting_record));
    vm_compute; reflexivity.
Defined.

(** X14: The processor decides nothing but the text: two processors give the
    same conversation and summary, or the same error, on every record, and
    the same text when their system prompts agree. *)
Theorem process_sample_processor (self self' : Processor) (sample : row) :
  match process_sample self sample, process_sample self' sample with
  | Ok r, Ok r' =>
      conversation r = conversation r' /\ summary r = summary r'
      /\ (system_prompt self = system_prompt self' -> text r = text r')
  | Err e, Err e' => e = e'
  | _, _ => False
  end.
Proof.
  unfold process_sample.
  destruct (format_conversation _) as [c|e]; cbn [bind]; [|reflexivity].
  destruct (sample_getitem _ _) as [i|e]; cbn [bind]; [|reflexivity].
  destruct (extract_summary i) as [s|e]; cbn [bind]; [|reflexivity].
  cbn [conversation summary text]. repeat split.
  intros Hp. rewrite !generate_prompt_eq, Hp. reflexivity.
Qed.

(** An error of the log comes first: it is the error of the record even
    when the metadata is missing or malformed. *)
Lemma process_sample_log_error (self : Processor) (sample : row) (e : exn) :
  format_conversation (sample_get sample (py "log") (VList [])) = Err e ->
  process_sample self sample = Err e.
Proof. intros H. unfold process_sample. rewrite H. reflexivity. Qed.

(** X15: Metadata that is not valid JSON stops the record with
    [JSONDecodeError] as soon as its log formats; metadata that is no
    string stops it with [TypeError]. *)
Theorem process_sample_malformed_metadata (self : Processor) (sample : row)
    (info : value) :
  is_Ok (format_conversation (sample_get sample (py "log") (VList []))) ->
  sample !! py "original dialog info" = Some info ->
  (forall s, info = VStr s -> loads s = None ->
     process_sample self sample = Err JSONDecodeError)
  /\ ((forall s, info <> VStr s) -> process_sample self sample = Err TypeError).
Proof.
  intros [c Hc] Hi. unfold process_sample, sample_getitem.
  rewrite Hc, Hi. cbn [bind]. split.
  - intros s -> Hl. unfold extract_summary, json_loads. rewrite Hl. reflexivity.
  - intros Hn. destruct info; try reflexivity. destruct (Hn s eq_refl).
Qed.

Lemma process_sample_malformed_metadata_witness :
  process_sample default_processor
    (<[py "original dialog info" := VStr (py "{oops")]> ∅) = Err JSONDecodeError
  /\ process_sample default_processor
       (<[py "original dialog info" := VNone]> ∅) = Err TypeError.
Proof.
  split.
  - apply (proj1 (process_sample_malformed_metadata default_processor
             (<[py "original dialog info" := VStr (py "{oops")]> ∅)
             (VStr (py "{oops"))
             ltac:(eexists; vm_compute; reflexivity)
             ltac:(vm_compute; reflexivity)) (py "{oops"));
      vm_compute; reflexivity.
  - apply (proj2 (process_sample_malformed_metadata default_processor
             (<[py "original dialog info" := VNone]> ∅) VNone
             ltac:(eexists; vm_compute; reflexivity)
             ltac:(vm_compute; reflexivity))).
    discriminate.
Defined.

(** ** The driver *)






Section DriverFacts.

Context {G : Type}.
Variable seeded_permutation : Z -> nat -> list nat.
Variable ambient_permutation : G -> nat -> list nat * G.

Local Abbreviation process := (_process seeded_permutation ambient_permutation).
Local Abbreviation pure := (process_pure seeded_permutation).
Local Abbreviation shuf := (shuffled seeded_permutation).
Local Abbreviation dataset_process :=
  (process_dataset seeded_permutation ambient_permutation).




End DriverFacts.




Lemma Processed_row_values (p : Processed) :
  Processed_row p !! py "conversation" = Some (VStr (conversation p))
  /\ Processed_row p !! py "summary" = Some (VStr (summary p))
  /\ Processed_row p !! py "text" = Some (VStr (text p)).
Proof. repeat split. Qed.

Lemma pruned_row_values (p : Processed) (raw : row) :
  pruned_row p raw !! py "conversation" = Some (VStr (conversation p))
  /\ pruned_row p raw !! py "summary" = Some (VStr (summary p))
  /\ pruned_row p raw !! py "text" = Some (VStr (text p))
  /\ (forall k, k ∉ COLUMNS_TO_REMOVE ->
      k <> py "conversation" -> k <> py "summary" -> k <> py "text" ->
      pruned_row p raw !! k = raw !! k).
Proof.
  destruct (Processed_row_values p) as (Hc & Hs & Ht).
  repeat split.
  - rewrite pruned_row_lookup, decide_False by (apply new_fields_kept; auto).
    apply lookup_union_Some_l, Hc.
  - rewrite pruned_row_lookup, decide_False by (apply new_fields_kept; auto).
    apply lookup_union_Some_l, Hs.
  - apply pruned_row_text.
  - intros k Hk H1 H2 H3. rewrite pruned_row_lookup, decide_False by exact Hk.
    apply lookup_union_r.
    destruct (Processed_row p !! k) as [v|] eqn:Hv; [|reflexivity].
    assert (Hin : is_Some (Processed_row p !! k)) by (rewrite Hv; eauto).
    apply Processed_row_lookup in Hin as [-> | [-> | ->]]; contradiction.
Qed.

Section DriverValues.

Context {G : Type}.
Variable seeded_permutation : Z -> nat -> list nat.
Variable ambient_permutation : G -> nat -> list nat * G.

Local Abbreviation process := (_process seeded_permutation ambient_permutation).
Local Abbreviation pure := (process_pure seeded_permutation).
Local Abbreviation shuf := (shuffled seeded_permutation).
Local Abbreviation splits_process :=
  (process_splits seeded_permutation ambient_permutation).
Local Abbreviation dataset_process :=
  (process_dataset seeded_permutation ambient_permutation).

Lemma process_pure_values (self : Processor) (tokenize : bool) (data out : Dataset) :
  pure self tokenize data = Ok out ->
  Forall2 (kept_values self tokenize) (rows (shuf self data)) (rows out).
Proof.
  intros H. apply process_pure_rows in H.
  eapply Forall2_impl; [exact H|]. cbn beta. clear H.
  intros raw rec (p & Hp & Hrec).
  destruct (pruned_row_values p raw) as (Hc & Hs & Ht & Hraw).
  assert (Hplain : rec = pruned_row p raw ->
            token_fields self tokenize p ∅ -> kept_values self tokenize raw rec).
  { intros -> Htok. exists p, ∅. repeat split; auto. }
  destruct tokenize; [destruct (tokenizer self) as [tok|] eqn:Etok|];
    try (apply Hplain; [exact Hrec | unfold token_fields; rewrite ?Etok; reflexivity]).
  destruct Hrec as (enc & Henc & ->). exists p, enc.
  split; [exact Hp|].
  split; [unfold token_fields; rewrite Etok; exact Henc|].
  repeat split.
  - intros Hn. rewrite lookup_union_r by exact Hn. exact Hc.
  - intros Hn. rewrite lookup_union_r by exact Hn. exact Hs.
  - intros Hn. rewrite lookup_union_r by exact Hn. exact Ht.
  - intros k Hn Hk H1 H2 H3. rewrite lookup_union_r by exact Hn.
    apply Hraw; assumption.
Qed.

(** X18: Processing rewrites nothing it does not own: in every record of the
    result the three new fields hold what [process_sample] returned for
    the raw record at that place of the shuffled split, and every other
    field that is not dropped holds the raw value, save the fields the
    tokenizer writes. *)
Theorem process_dataset_keeps_values (self : Processor) (tokenize : bool)
    (dataset out : Corpus) (g : G) :
  fst (dataset_process self dataset tokenize g) = Ok out ->
  Forall2 (fun din dout =>
      Forall2 (kept_values self tokenize) (rows (shuf self din)) (rows dout))
    (corpus_splits dataset) (corpus_splits out).
Proof.
  intros H. apply dataset_process_Forall2 in H as [H _].
  eapply Forall2_impl; [exact H|]. cbn beta.
  intros din dout Hd. apply process_pure_values, Hd.
Qed.

Lemma splits_process_Ok_iff (self : Processor) (tokenize : bool)
    (splits outs : list (str * Dataset)) (g : G) :
  fst (splits_process self tokenize splits g) = Ok outs <->
  Forall2 (fun kv kv' =>
      fst kv = fst kv' /\ fst (process self tokenize (snd kv) g) = Ok (snd kv'))
    splits outs.
Proof.
  revert outs. induction splits as [|[k v] rest IH]; intros outs.
  - cbn. split.
    + intros [= <-]. constructor.
    + intros H. inversion H. reflexivity.
  - cbn [process_splits]. rewrite process_eq.
    destruct (pure self tokenize v) as [v'|e] eqn:Hv.
    + destruct (splits_process self tokenize rest g) as [r g1] eqn:Hr.
      cbn [fst] in *. split.
      * intros H. apply bind_Ok in H as (rest' & -> & [= <-]).
        constructor; [|apply IH; reflexivity].
        cbn [fst snd]. rewrite process_eq. cbn [fst]. auto.
      * intros H.
        apply Forall2_cons_inv_l in H as ([k' w] & outs' & [Hk Hw] & Hrest & ->).
        cbn [fst snd] in *. rewrite process_eq in Hw. cbn [fst] in Hw.
        apply IH in Hrest. subst. cbn [bind]. congruence.
    + cbn [fst]. split; [discriminate|].
      intros H.
      apply Forall2_cons_inv_l in H as ([k' w] & outs' & [Hk Hw] & Hrest & ->).
      cbn [fst snd] in *. rewrite process_eq in Hw. cbn [fst] in Hw. congruence.
Qed.

(** X19: Named splits are processed independently: the corpus succeeds exactly
    when every split succeeds on its own, and then each split of the
    result, under its old name, is the result of its own split. *)
Theorem process_dataset_named (self : Processor) (tokenize : bool)
    (splits : list (str * Dataset)) (out : Corpus) (g : G) :
  fst (dataset_process self (Named splits) tokenize g) = Ok out <->
  exists outs,
    out = Named outs
    /\ Forall2 (fun kv kv' =>
         fst kv = fst kv'
         /\ fst (dataset_process self (Single (snd kv)) tokenize g)
            = Ok (Single (snd kv')))
       splits outs.
Proof.
  assert (Hsingle : forall d d',
    fst (dataset_process self (Single d) tokenize g) = Ok (Single d')
    <-> fst (process self tokenize d g) = Ok d').
  { intros d d'. cbn [process_dataset]. rewrite process_eq. cbn [fst].
    destruct (pure self tokenize d); cbn [bind]; split; congruence. }
  cbn [process_dataset].
  destruct (splits_process self tokenize splits g) as [r g1] eqn:Hr.
  cbn [fst]. split.
  - intros H. apply bind_Ok in H as (outs & -> & [= <-]).
    exists outs. split; [reflexivity|].
    eapply Forall2_impl; [apply splits_process_Ok_iff; rewrite Hr; reflexivity|].
    cbn beta. intros kv kv' [Hk Hp]. split; [exact Hk | apply Hsingle, Hp].
  - intros (outs & -> & H).
    assert (Hs : fst (splits_process self tokenize splits g) = Ok outs).
    { apply splits_process_Ok_iff. eapply Forall2_impl; [exact H|].
      cbn beta. intros kv kv' [Hk Hp]. split; [exact Hk | apply Hsingle, Hp]. }
    rewrite Hr in Hs. cbn [fst] in Hs. subst r. reflexivity.
Qed.

(** X20: The first split that fails stops the corpus with its error; the
    splits after it are not looked at. *)
Theorem process_dataset_first_failure (self : Processor) (tokenize : bool)
    (good : list (str * Dataset)) (k : str) (bad : Dataset)
    (rest : list (str * Dataset)) (e : exn) (g : G) :
  Forall (fun kv => is_Ok (fst (process self tokenize (snd kv) g))) good ->
  fst (process self tokenize bad g) = Err e ->
  fst (dataset_process self (Named (good ++ (k, bad) :: rest)) tokenize g) = Err e.
Proof.
  intros Hg Hb. cbn [process_dataset].
  assert (H : fst (splits_process self tokenize (good ++ (k, bad) :: rest) g)
              = Err e).
  { induction Hg as [|[k0 v0] good [v' Hv] _ IH]; cbn [app process_splits].
    - rewrite process_eq in *. cbn [fst] in Hb. rewrite Hb. reflexivity.
    - rewrite process_eq in *. cbn [fst snd] in Hv. rewrite Hv.
      destruct (splits_process self tokenize (good ++ (k, bad) :: rest) g)
        as [r g1]. cbn [fst] in *. rewrite IH. reflexivity. }
  destruct (splits_process self tokenize (good ++ (k, bad) :: rest) g) as [r g1].
  cbn [fst] in *. rewrite H. reflexivity.
Qed.

End DriverValues.

Section DriverTokenizer.

Context {G : Type}.
Variable seeded_permutation : Z -> nat -> list nat.
Variable ambient_permutation : G -> nat -> list nat * G.

Local Abbreviation process := (_process seeded_permutation ambient_permutation).
Local Abbreviation dataset_process :=
  (process_dataset seeded_permutation ambient_permutation).


(** X22: After a corpus of named splits is processed, the lookup of a split by
    its name, as [main] makes it for [train] and [validation], finds the
    processed form of the split the name stood for. *)
Theorem process_dataset_getitem (self : Processor) (tokenize : bool)
    (splits : list (str * Dataset)) (processed : Corpus) (g : G)
    (name : str) (d : Dataset) :
  fst (dataset_process self (Named splits) tokenize g) = Ok processed ->
  Corpus_getitem (Named splits) name = Ok (Split d) ->
  exists d',
    Corpus_getitem processed name = Ok (Split d')
    /\ fst (process self tokenize d g) = Ok d'.
Proof.
  intros Hp Hget. cbn [process_dataset] in Hp.
  destruct (process_splits seeded_permutation ambient_permutation self tokenize
              splits g) as [r g1] eqn:Hr.
  cbn [fst] in Hp. apply bind_Ok in Hp as (outs & -> & [= <-]).
  assert (HF : Forall2 (fun kv kv' =>
            fst kv = fst kv' /\ fst (process self tokenize (snd kv) g) = Ok (snd kv'))
            splits outs).
  { apply (splits_process_Ok_iff seeded_permutation ambient_permutation).
    rewrite Hr. reflexivity. }
  clear Hr. cbn [Corpus_getitem] in *.
  induction HF as [|[k v] [k' v'] splits outs [Hk Hv] _ IH]; [discriminate|].
  cbn [fst snd] in Hk, Hv. subst k'. cbn [list_find] in *. cbn [fst] in *.
  destruct (decide (k = name)) as [->|Hne].
  - cbn in *. injection Hget as <-. exists v'. split; [reflexivity | exact Hv].
  - destruct (list_find (fun kv => fst kv = name) splits) as [[i [k2 d2]]|] eqn:Hf;
      cbn in Hget; [|discriminate].
    injection Hget as ->.
    destruct IH as (d' & Hd' & Hrun); [reflexivity|].
    destruct (list_find (fun kv => fst kv = name) outs) as [[j [k3 d3]]|] eqn:Hf';
      [|discriminate].
    injection Hd' as ->. exists d'. split; [reflexivity | exact Hrun].
Qed.

End DriverTokenizer.

(** ** [main] *)

Lemma Config_hf_token (timestamp : str) :
  getattr (Config timestamp) (py "hf_token") = Err AttributeError.
Proof. reflexivity. Qed.

(** X24: [main] never gets to load anything: [Config] has no attribute
    [hf_token], so the first read of [config.hf_token] raises
    [AttributeError] before a model, a tokenizer or a dataset is asked
    for, whatever the framework would answer. *)
Theorem main_raises_AttributeError {G Model Args Peft Trainer : Type}
    (seeded_permutation : Z -> nat -> list nat)
    (ambient_permutation : G -> nat -> list nat * G)
    (timestamp : str)
    (initialize_model : value -> value -> result Model)
    (initialize_tokenizer : value -> value -> result (str -> result row))
    (load_dataset : value -> value -> value -> result Corpus)
    (TrainingArguments : list (str * value) -> result Args)
    (LoraConfig : list (str * value) -> result Peft)
    (SFTTrainer : Model -> item -> item -> Peft -> Args -> result Trainer)
    (train : Trainer -> result unit) (g : G) :
  main seeded_permutation ambient_permutation timestamp initialize_model
    initialize_tokenizer load_dataset TrainingArguments LoraConfig SFTTrainer
    train g
  = (Err AttributeError, g).
Proof.
  unfold main, main_load.
  change (getattr (Config timestamp) (py "model_id"))
    with (Ok (A := value) (VStr (py "meta-llama/Llama-2-70b-hf"))).
  cbn [bind]. rewrite Config_hf_token. reflexivity.
Qed.

(** The reads [main] makes of [Config] for the training arguments and the
    adapter never fail: every attribute and key it asks for is there. *)
Lemma main_config_reads (timestamp : str) :
  is_Ok (main_training_arguments (Config timestamp))
  /\ is_Ok (main_peft_config (Config timestamp)).
Proof. split; eexists; reflexivity. Qed.

Section DriverEmpty.

Context {G : Type}.
Variable seeded_permutation : Z -> nat -> list nat.
Variable ambient_permutation : G -> nat -> list nat * G.

(** X23: A split without records that has the six columns is processed to a
    split without records: the columns are dropped, no column is added,
    and the tokenizer is not called. *)
Theorem process_empty_split (self : Processor) (tokenize : bool)
    (data : Dataset) (g : G) :
  rows data = [] ->
  Forall (fun k => k ∈ column_names data) COLUMNS_TO_REMOVE ->
  fst (_process seeded_permutation ambient_permutation self tokenize data g)
  = Ok {| column_names := column_names data ∖ list_to_set COLUMNS_TO_REMOVE;
          rows := [] |}.
Proof.
  intros Hr Hc. rewrite process_eq. cbn [fst].
  unfold process_pure, shuffled, Dataset_select. rewrite Hr.
  assert (Hsel : omap (fun i => @nil row !! i)
                   (seeded_permutation (seed self) (length (@nil row))) = []).
  { induction (seeded_permutation (seed self) (length (@nil row))) as [|i l IH];
      [reflexivity | exact IH]. }
  rewrite Hsel. unfold Dataset_map at 1. cbn [rows bind].
  unfold Dataset_remove_columns. cbn [column_names rows].
  apply forallb_columns in Hc. rewrite Hc. cbn [bind fmap list_fmap].
  destruct tokenize; [destruct (tokenizer self)|]; reflexivity.
Qed.

End DriverEmpty.

Lemma process_empty_split_witness :
  fst (_process reversed_permutation still_generator tokenizing_processor true
         empty_split tt)
  = Ok {| column_names := column_names empty_split ∖ list_to_set COLUMNS_TO_REMOVE;
          rows := [] |}.
Proof.
  apply (process_empty_split reversed_permutation still_generator
           tokenizing_processor true empty_split tt).
  - reflexivity.
  - apply forallb_columns. vm_compute. reflexivity.
Defined.

(** ** Instances *)

Lemma process_dataset_keeps_values_witness :
  exists out,
    fst (process_dataset reversed_permutation still_generator tokenizing_processor
           (Named example_splits) true tt) = Ok out
    /\ Forall2 (fun din dout =>
         Forall2 (kept_values tokenizing_processor true)
           (rows (shuffled reversed_permutation tokenizing_processor din))
           (rows dout))
       (corpus_splits (Named example_splits)) (corpus_splits out).
Proof.
  eexists. split; [vm_compute; reflexivity|].
  apply (process_dataset_keeps_values reversed_permutation still_generator
           tokenizing_processor true (Named example_splits) _ tt).
  vm_compute. reflexivity.
Defined.

Lemma process_dataset_first_failure_witness :
  fst (process_dataset reversed_permutation still_generator default_processor
         (Named ([(py "train", example_split)]
                 ++ (py "validation", no_prompt_split)
                 :: [(py "test", no_info_split)])) false tt)
  = Err ValueError.
Proof.
  apply (process_dataset_first_failure reversed_permutation still_generator
           default_processor false [(py "train", example_split)]
           (py "validation") no_prompt_split [(py "test", no_info_split)]).
  - repeat constructor. eexists. vm_compute. reflexivity.
  - vm_compute. reflexivity.
Defined.


Lemma process_dataset_getitem_witness :
  exists processed d',
    fst (process_dataset reversed_permutation still_generator default_processor
           (Named example_splits) false tt) = Ok processed
    /\ Corpus_getitem processed (py "validation") = Ok (Split d')
    /\ fst (_process reversed_permutation still_generator default_processor false
              example_split tt) = Ok d'.
Proof.
  eexists.
  assert (H : fst (process_dataset reversed_permutation still_generator
                     default_processor (Named example_splits) false tt) = Ok _)
    by (vm_compute; reflexivity).
  destruct (process_dataset_getitem reversed_permutation still_generator
              default_processor false example_splits _ tt (py "validation")
              example_split H) as (d' & Hd & Hrun).
  - vm_compute. reflexivity.
  - exists d'. split; [exact H | split; assumption].
Defined.
